(** * The psutil issue bot ([.github/workflows/issues.py])

    A shallow embedding of the bot that GitHub Actions runs whenever an
    issue, a pull request or a comment is created, and the properties of
    its rule engine.

    Python strings are modelled as [string] over the code points 0..255;
    on that range [lower] is exactly [str.lower].  The hosting platform's
    client object ([issue]) is a record whose label list is read by
    [issue.labels] and extended by [issue.add_to_labels]; every call on
    the client is recorded in a trace.  A Python exception is an outcome
    of its own, so a run that aborts is told apart from one that returns. *)

From Stdlib Require Import String Ascii List Bool ZArith Lia.
Import ListNotations.
Open Scope string_scope.

(* ================================================================== *)
(** * Text primitives *)
(* ================================================================== *)

Module Text.

(** ['\n'] and ['\r']. *)
Definition LF : ascii := "010"%char.
Definition CR : ascii := "013"%char.
Definition nl : string := String LF "".
Definition crnl : string := String CR nl.

(** [str.lower] on one code point below 256: the letters A..Z and the
    Latin-1 capitals 192..222 (all but the multiplication sign 215)
    move up by 32, everything else stays. *)
Definition lower_char (c : ascii) : ascii :=
  let n := N_of_ascii c in
  if ((65 <=? n) && (n <=? 90))%N
     || ((192 <=? n) && (n <=? 222) && negb (n =? 215))%N
  then ascii_of_N (n + 32)
  else c.

(** [s.lower()] *)
Fixpoint lower (s : string) : string :=
  match s with
  | "" => ""
  | String c s' => String (lower_char c) (lower s')
  end.

(** [s.startswith(p)] *)
Fixpoint startswith (s p : string) {struct p} : bool :=
  match p with
  | "" => true
  | String a p' =>
      match s with
      | "" => false
      | String b s' => Ascii.eqb a b && startswith s' p'
      end
  end.

(** [needle in hay] *)
Fixpoint is_in (needle hay : string) : bool :=
  startswith hay needle
  || match hay with
     | "" => false
     | String _ hay' => is_in needle hay'
     end.

(** [s.replace(' ', '')] *)
Fixpoint remove_spaces (s : string) : string :=
  match s with
  | "" => ""
  | String c s' =>
      if Ascii.eqb c " " then remove_spaces s' else String c (remove_spaces s')
  end.

(** [s.endswith(suffix)] *)
Fixpoint endswith (s suffix : string) : bool :=
  String.eqb s suffix
  || match s with
     | "" => false
     | String _ s' => endswith s' suffix
     end.

(** [label in assigned] for a list of names. *)
Definition mem (x : string) (xs : list string) : bool :=
  existsb (String.eqb x) xs.

(** Occurrence of [needle] inside [hay], as a proposition. *)
Definition Substring (needle hay : string) : Prop :=
  exists before after, hay = before ++ needle ++ after.

(** No line feed in [s]. *)
Fixpoint no_newline (s : string) : bool :=
  match s with
  | "" => true
  | String c s' => negb (Ascii.eqb c LF) && no_newline s'
  end.

(** [s] is made of whole lines: it is empty or ends with a line feed. *)
Fixpoint whole_lines (s : string) : bool :=
  match s with
  | "" => true
  | String c s' =>
      match s' with
      | "" => Ascii.eqb c LF
      | String _ _ => whole_lines s'
      end
  end.

End Text.
Import Text.

(* ================================================================== *)
(** * The regular expressions of the template fields *)
(* ================================================================== *)

(** The three patterns of [add_labels_from_new_body] have one shape: a
    literal field marker followed by [.*?\n].  [re.search] tries every
    start position from the left; at a position it matches the literal,
    then lazily as few characters other than a line feed as it can,
    then one line feed.  The result is [group(0)]. *)
Module Re.

(** [.*?\n] anchored at the head of [s]. *)
Fixpoint lazy_line (s : string) : option string :=
  match s with
  | "" => None
  | String c s' =>
      if Ascii.eqb c LF then Some nl
      else option_map (String c) (lazy_line s')
  end.

(** The literal [lit], then [.*?\n], anchored at the head of [s]. *)
Fixpoint match_here (lit s : string) {struct lit} : option string :=
  match lit with
  | "" => lazy_line s
  | String a lit' =>
      match s with
      | "" => None
      | String b s' =>
          if Ascii.eqb a b then option_map (String a) (match_here lit' s')
          else None
      end
  end.

(** [re.search(lit + r".*?\n", s)], giving [group(0)] of the match. *)
Fixpoint search (lit s : string) : option string :=
  match match_here lit s with
  | Some m => Some m
  | None =>
      match s with
      | "" => None
      | String _ s' => search lit s'
      end
  end.

End Re.

(* ================================================================== *)
(** * Constants *)
(* ================================================================== *)

(** A rule catalog: label names with their trigger keywords, in the
    insertion order of the dictionary. *)
Definition catalog : Type := list (string * list string).

(** [LABELS_MAP] as the module builds it: the literal dictionary, whose
    ["scripts"] entry is extended by the [.py] file names found in
    [SCRIPTS_DIR]; [listing] is what [os.listdir(SCRIPTS_DIR)] returned. *)
Definition LABELS_MAP (listing : list string) : catalog :=
  [ (* platforms *)
    ("linux",
      ["linux"; "ubuntu"; "redhat"; "mint"; "centos"; "red hat"; "archlinux";
       "debian"; "alpine"; "gentoo"; "fedora"; "slackware"; "suse"; "RHEL";
       "opensuse"; "manylinux"; "apt "; "apt-"; "rpm"; "yum"; "kali";
       "/sys/class"; "/proc/net"; "/proc/disk"; "/proc/smaps";
       "/proc/vmstat"]);
    ("windows",
      ["windows"; "win32"; "WinError"; "WindowsError"; "win10"; "win7";
       "win "; "mingw"; "msys"; "studio"; "microsoft"; "make.bat";
       "CloseHandle"; "GetLastError"; "NtQuery"; "DLL"; "MSVC"; "TCHAR";
       "WCHAR"; ".bat"; "OpenProcess"; "TerminateProcess"; "appveyor";
       "windows error"; "NtWow64"; "NTSTATUS"; "Visual Studio"]);
    ("macos",
      ["macos"; "mac "; "osx"; "os x"; "mojave"; "sierra"; "capitan";
       "yosemite"; "catalina"; "mojave"; "big sur"; "xcode"; "darwin";
       "dylib"]);
    ("aix", ["aix"]);
    ("cygwin", ["cygwin"]);
    ("freebsd", ["freebsd"]);
    ("netbsd", ["netbsd"]);
    ("openbsd", ["openbsd"]);
    ("sunos", ["sunos"; "solaris"]);
    ("wsl", ["wsl"]);
    ("unix",
      ["psposix"; "_psutil_posix"; "waitpid"; "statvfs"; "/dev/tty";
       "/dev/pts"]);
    ("pypy", ["pypy"]);
    (* types *)
    ("enhancement", ["enhancement"]);
    ("memleak", ["memory leak"; "leaks memory"; "memleak"; "mem leak"]);
    ("api", ["idea"; "proposal"; "api"; "feature"]);
    ("performance", ["performance"; "speedup"; "speed up"; "slow"; "fast"]);
    ("wheels", ["wheel"; "wheels"]);
    ("scripts",
      (["example script"; "examples script"; "example dir"; "scripts/"]
       ++ filter (fun x => endswith x ".py") listing)%list);
    (* bug *)
    ("bug",
      ["fail"; "can't execute"; "can't install"; "cannot execute";
       "cannot install"; "install error"; "crash"; "critical"]);
    (* doc *)
    ("doc",
      ["doc "; "document "; "documentation"; "readthedocs"; "pythonhosted";
       "HISTORY"; "README"; "dev guide"; "devguide"; "sphinx"; "docfix";
       "index.rst"]);
    (* tests *)
    ("tests",
      [" test "; "tests"; "travis"; "coverage"; "cirrus"; "appveyor";
       "continuous integration"; "unittest"; "pytest"; "unit test"]);
    (* critical errors *)
    ("priority-high",
      ["WinError"; "WindowsError"; "RuntimeError"; "ZeroDivisionError";
       "SystemError"; "MemoryError"; "core dumped";
       "segfault"; "segmentation fault"])
  ].

Definition OS_LABELS : list string :=
  ["linux"; "windows"; "macos"; "freebsd"; "openbsd"; "netbsd"; "openbsd";
   "bsd"; "sunos"; "unix"; "wsl"; "aix"; "cygwin"].

Definition ILLOGICAL_PAIRS : list (string * string) :=
  [ ("bug", "enhancement");
    ("doc", "tests");
    ("scripts", "doc");
    ("scripts", "tests");
    ("bsd", "freebsd");
    ("bsd", "openbsd");
    ("bsd", "netbsd") ].

Definition REPLY_MISSING_PYTHON_HEADERS : string :=
  "It looks like you're missing `Python.h` headers. This usually means you have "
  ++ "to install them first, then retry psutil installation."
  ++ nl
  ++ "Please read "
  ++ "[INSTALL](https://github.com/giampaolo/psutil/blob/master/INSTALL.rst) "
  ++ "instructions for your platform. "
  ++ "This is an auto-generated response based on the text you submitted. "
  ++ "If this was a mistake or you think there's a bug with psutil installation "
  ++ "process, please add a comment to reopen this issue."
  ++ nl.

(* ================================================================== *)
(** * The item and the hosting platform's client *)
(* ================================================================== *)

(** What the bot reads of the object returned by [get_issue]:
    [issue.__module__], [issue.title], [issue.body], [issue.comments],
    the names of [issue.labels], and the item's state. *)
Record Issue : Type := mkIssue {
  module_name : string;
  title : string;
  body : string;
  comments : Z;
  labels : list string;
  state : string
}.

(** A call on the client that changes the item. *)
Inductive Call : Type :=
| add_to_labels_call (label : string)
| create_comment_call (text : string)
| edit_call (new_state : string).

(** One line of output of [log]: the format string of the call site and
    its arguments. *)
Inductive Message : Type :=
| msg_already_has_label (label : string)
| msg_should_not_add_label (label : string)
| msg_add_label (label : string)
| msg_start_searching
| msg_search_os
| msg_search_bug_fix
| msg_search_type
| msg_found
| msg_not_found
| msg_searching_python_h
| msg_running (stype : string)
| msg_new (stype body : string).

(** The item, the calls made on the client so far and the printed log. *)
Record World : Type := mkWorld {
  item : Issue;
  calls : list Call;
  stdout : list Message
}.

Inductive Exn : Type := TypeError.

Inductive outcome (A : Type) : Type :=
| Returned (a : A)
| Raised (e : Exn).
Arguments Returned {A} a.
Arguments Raised {A} e.

(** Computations of the bot: they read and change the world, and end by
    returning a value or by raising. *)
Definition M (A : Type) : Type := World -> outcome A * World.

Definition ret {A} (a : A) : M A := fun w => (Returned a, w).

Definition bind {A B} (m : M A) (k : A -> M B) : M B :=
  fun w =>
    match m w with
    | (Returned a, w') => k a w'
    | (Raised e, w') => (Raised e, w')
    end.

Definition raise {A} (e : Exn) : M A := fun w => (Raised e, w).

Definition get_issue : M Issue := fun w => (Returned (item w), w).

Notation "x <- m ;; k" := (bind m (fun x => k))
  (at level 61, m at next level, right associativity).
Notation "m ;; k" := (bind m (fun _ => k))
  (at level 61, right associativity).

(** [if cond: body] *)
Definition when (cond : bool) (body : M unit) : M unit :=
  if cond then body else ret tt.

(** [for x in xs: body(x)] *)
Fixpoint for_each {A} (xs : list A) (body : A -> M unit) : M unit :=
  match xs with
  | [] => ret tt
  | x :: xs' => body x ;; for_each xs' body
  end.

Definition set_labels (i : Issue) (ls : list string) : Issue :=
  mkIssue (module_name i) (title i) (body i) (comments i) ls (state i).

Definition set_state (i : Issue) (s : string) : Issue :=
  mkIssue (module_name i) (title i) (body i) (comments i) (labels i) s.

(** Modelled from the spec: the client library (PyGithub) is not part of
    the repository.  [issue.add_to_labels(label)] attaches the label to the
    item, whose label set holds no name twice; [issue.labels] reads that
    set as it currently is. *)
Definition add_to_labels (label : string) : M unit :=
  fun w =>
    let i := item w in
    let ls := if mem label (labels i) then labels i
              else (labels i ++ [label])%list in
    (Returned tt,
     mkWorld (set_labels i ls)
             (calls w ++ [add_to_labels_call label])%list (stdout w)).

(** Modelled from the spec: [issue.create_comment(text)] posts a comment. *)
Definition create_comment (text : string) : M unit :=
  fun w =>
    (Returned tt,
     mkWorld (item w) (calls w ++ [create_comment_call text])%list (stdout w)).

(** Modelled from the spec: [issue.edit(state=s)] changes the state. *)
Definition edit (new_state : string) : M unit :=
  fun w =>
    (Returned tt,
     mkWorld (set_state (item w) new_state)
             (calls w ++ [edit_call new_state])%list (stdout w)).

(* ================================================================== *)
(** * The bot *)
(* ================================================================== *)

(** ** utils *)

Definition is_pr (issue : Issue) : bool :=
  is_in "PullRequest" (module_name issue).

Definition is_issue (issue : Issue) : bool := negb (is_pr issue).

Definition is_new (issue : Issue) : bool := (comments issue =? 0)%Z.

Definition is_comment (issue : Issue) : bool := negb (is_new issue).

Definition has_label (issue : Issue) (label : string) : bool :=
  let assigned := labels issue in
  mem label assigned.

Definition has_os_label (issue : Issue) : bool :=
  existsb (fun label => mem label (labels issue)) OS_LABELS.

(** ** actions *)

(** [log(msg)] prints the message. *)
Definition log (msg : Message) : M unit :=
  fun w => (Returned tt, mkWorld (item w) (calls w) (stdout w ++ [msg])%list).

(** The text that [log(msg)] hands to [print]: the message between the
    markers, on lines of its own when the test
    ['\n' in msg or "\r\n" in msg] holds, on one line otherwise. *)
Definition log_text (msg : string) : string :=
  if is_in nl msg || is_in crnl msg
  then ">>>" ++ nl ++ msg ++ nl ++ "<<<"
  else ">>> " ++ msg ++ " <<<".

(** [log(fmt % arg)] for a format string [fmt] without any conversion:
    Python evaluates the argument first, and [%] raises [TypeError] (not
    all arguments converted) whatever string [arg] is, so [log] is never
    entered. *)
Definition log_unformattable : M unit := raise TypeError.

(** The loop of [should_add] over [ILLOGICAL_PAIRS].  When a pair fires,
    the code runs [log("already has label" % (label))] and then
    [return False].  [None] is the loop running to its end. *)
Fixpoint should_add_pairs (label : string) (pairs : list (string * string))
  : M (option bool) :=
  match pairs with
  | [] => ret None
  | (left_label, right_label) :: pairs' =>
      issue <- get_issue ;;
      if String.eqb label left_label && has_label issue right_label
      then
        log_unformattable ;;
        ret (Some false)
      else should_add_pairs label pairs'
  end.

Definition should_add (label : string) : M bool :=
  issue <- get_issue ;;
  if has_label issue label then
    log (msg_already_has_label label) ;;
    ret false
  else
    r <- should_add_pairs label ILLOGICAL_PAIRS ;;
    match r with
    | Some b => ret b
    | None =>
        issue <- get_issue ;;
        ret (negb (has_label issue label))
    end.

Definition add_label (label : string) : M unit :=
  ok <- should_add label ;;
  if negb ok then
    log (msg_should_not_add_label label)
  else
    log (msg_add_label label) ;;
    add_to_labels label.

Section Bot.

(** The value of the global [LABELS_MAP] when the bot runs. *)
Variable labels_map : catalog.

(** The generator, as the list of the pairs it yields, in order.  Its
    [issue] argument is not used. *)
Definition _guess_labels_from_text (text : string) : list (string * string) :=
  flat_map
    (fun '(label, keywords) =>
       flat_map
         (fun keyword =>
            if is_in (lower keyword) (lower text)
            then [(label, keyword)] else [])
         keywords)
    labels_map.

Definition add_labels_from_text (text : string) : M unit :=
  for_each (_guess_labels_from_text text)
           (fun '(label, keyword) => add_label label).

(** The [OS] line of [add_labels_from_new_body]. *)
Definition os_line (text : string) : M unit :=
  let r := Re.search "* OS:" text in
  log msg_search_os ;;
  match r with
  | Some group0 =>
      log msg_found ;;
      add_labels_from_text group0
  | None => log msg_not_found
  end.

(** The [Bug fix] line of [add_labels_from_new_body]; the conjunction
    [is_pr(issue) and r is not None and not ... and not ...] is split
    into the test on [r] and the test on the item. *)
Definition bug_fix_line (text : string) : M unit :=
  log msg_search_bug_fix ;;
  let r := Re.search "* Bug fix:" text in
  issue <- get_issue ;;
  match r with
  | Some group0 =>
      if is_pr issue
         && negb (has_label issue "bug")
         && negb (has_label issue "enhancement")
      then
        log msg_found ;;
        let s := lower group0 in
        if is_in "yes" s then add_label "bug"
        else add_label "enhancement"
      else log msg_not_found
  | None => log msg_not_found
  end.

(** The [Type] line of [add_labels_from_new_body]. *)
Definition type_line (text : string) : M unit :=
  log msg_search_type ;;
  let r := Re.search "* Type:" text in
  match r with
  | Some group0 =>
      log msg_found ;;
      let s := lower group0 in
      when (is_in "doc" s) (add_label "doc") ;;
      when (is_in "performance" s) (add_label "performance") ;;
      when (is_in "scripts" s) (add_label "scripts") ;;
      when (is_in "tests" s) (add_label "tests") ;;
      when (is_in "wheels" s) (add_label "wheels") ;;
      when (is_in "new-api" s) (add_label "new-api") ;;
      when (is_in "new-platform" s) (add_label "new-platform")
  | None => log msg_not_found
  end.

Definition add_labels_from_new_body (text : string) : M unit :=
  log msg_start_searching ;;
  os_line text ;;
  bug_fix_line text ;;
  type_line text.

(** ** events *)

(** The condition of [on_new_issue]. *)
Definition missing_python_h (issue : Issue) : bool :=
  let has_text text :=
    is_in text (lower (title issue)) || is_in text (lower (body issue)) in
  has_text "missing python.h"
  || has_text "python.h: no such file or directory"
  || is_in ("#include<Python.h>" ++ nl ++ "^~~~") (remove_spaces (body issue))
  || is_in ("#include<Python.h>" ++ crnl ++ "^~~~") (remove_spaces (body issue)).

Definition on_new_issue : M unit :=
  issue <- get_issue ;;
  log msg_searching_python_h ;;
  if missing_python_h issue then
    log msg_found ;;
    create_comment REPLY_MISSING_PYTHON_HEADERS ;;
    edit "closed"
  else ret tt.

Definition on_new_pr : M unit := ret tt.

Definition on_new_comment : M unit := ret tt.

(** [main], from the item that [get_issue] fetched.  The comment branch
    starts with [log("new comment: \n" % issue.body)]. *)
Definition main : M unit :=
  issue <- get_issue ;;
  let stype := if is_issue issue then "issue" else "PR" in
  log (msg_running stype) ;;
  if is_new issue then
    log (msg_new stype (body issue)) ;;
    add_labels_from_text (title issue) ;;
    add_labels_from_new_body (body issue) ;;
    when (is_issue issue) on_new_issue ;;
    when (is_pr issue) on_new_pr
  else
    log_unformattable ;;
    on_new_comment.

End Bot.

(** A freshly fetched item, before the bot has done anything. *)
Definition fetched (issue : Issue) : World := mkWorld issue [] [].

(* ================================================================== *)
(** * Worlds, items and predicates used to state the properties *)
(* ================================================================== *)

(** The world after [add_to_labels label] on an item without [label]. *)
Definition attached (label : string) (w : World) : World :=
  mkWorld (set_labels (item w) (labels (item w) ++ [label]))
          (calls w ++ [add_to_labels_call label])
          (stdout w ++ [msg_add_label label]).

(** The world after an attempt that found the label already present. *)
Definition skipped (label : string) (w : World) : World :=
  mkWorld (item w) (calls w)
          (stdout w ++ [msg_already_has_label label;
                        msg_should_not_add_label label]).

(** Whether some pair with [label] on the left has its right label on
    the item. *)
Definition pair_fires (issue : Issue) (label : string) : bool :=
  existsb (fun '(l, r) => String.eqb label l && has_label issue r)
          ILLOGICAL_PAIRS.

(** Two states of an item with the same kind, texts and comment count. *)
Definition same_text (i i' : Issue) : Prop :=
  module_name i' = module_name i /\ title i' = title i
  /\ body i' = body i /\ comments i' = comments i.

(** A computation that changes neither the kind, the texts nor the
    comment count of the item, however it ends. *)
Definition keeps_text {A} (m : M A) : Prop :=
  forall w, same_text (item w) (item (snd (m w))).

Create HintDb frame.

(** Items without comments, as [get_issue] returns them: an issue and a
    pull request, open, with the given title, body and labels. *)
Definition new_issue (t b : string) (ls : list string) : Issue :=
  mkIssue "github.Issue" t b 0 ls "open".

Definition new_pull_request (t b : string) (ls : list string) : Issue :=
  mkIssue "github.PullRequest" t b 0 ls "open".

(** The compiler's complaint about the missing header, with a space
    between the directive and the file name as compilers print it. *)
Definition include_line : string := "#include <Python.h>".
Definition TAB : string := String "009"%char "".

(** The world after the detector matched: the reply is posted, then the
    item is closed. *)
Definition replied (w : World) : World :=
  mkWorld (set_state (item w) "closed")
          (calls w ++ [create_comment_call REPLY_MISSING_PYTHON_HEADERS;
                       edit_call "closed"])
          (stdout w ++ [msg_searching_python_h; msg_found]).

(** The world after the detector found nothing. *)
Definition searched (w : World) : World :=
  mkWorld (item w) (calls w) (stdout w ++ [msg_searching_python_h]).

(** What [main] does on a new item before it calls the event hooks. *)
Definition label_phase (R : catalog) (stype : string) (issue : Issue) : M unit :=
  log (msg_running stype) ;;
  log (msg_new stype (body issue)) ;;
  add_labels_from_text R (title issue) ;;
  add_labels_from_new_body R (body issue).

(** The issue of the specification's example, and the world the label
    phase leaves it in: the title holds no keyword of the catalog. *)
Definition headers_issue : Issue :=
  new_issue "missing Python.h on build" "" [].

Definition headers_issue_labelled : World :=
  mkWorld headers_issue []
    [msg_running "issue"; msg_new "issue" ""; msg_start_searching;
     msg_search_os; msg_not_found; msg_search_bug_fix; msg_not_found;
     msg_search_type; msg_not_found].

(** The body of the specification's pull request example. *)
Definition bug_fix_yes : string := "* Bug fix: yes" ++ nl.

(** The body of a pull request whose [Bug fix] line says no, in a body that says yes
    elsewhere: before the line, and on a second [Bug fix] line. *)
Definition bug_fix_no_body : string :=
  "yes, please merge" ++ nl ++ "* Bug fix: no" ++ nl ++ "* Bug fix: yes" ++ nl.

(** The three field markers of the templates. *)
Definition field_markers : list string := ["* OS:"; "* Bug fix:"; "* Type:"].

(** A body whose only [Type] field stands on its last, unterminated
    line. *)
Definition unterminated_body : string := "Summary" ++ nl.
Definition unterminated_field : string := "* Type: doc, tests".

(** The labels that [add_labels_from_new_body] names in its own text:
    those of the [Bug fix] line and of the [Type] line. *)
Definition template_labels : list string :=
  ["bug"; "enhancement"; "doc"; "performance"; "scripts"; "tests"; "wheels";
   "new-api"; "new-platform"].

(** A label the bot can come to propose with the catalog [R]. *)
Definition proposable (R : catalog) (label : string) : Prop :=
  In label (map fst R) \/ In label template_labels.

(** From [w] to [w'] nothing happened to the item but labels being
    attached: the new calls are [add_to_labels] calls, one for each label
    of [added], in order; each of these labels satisfies [P], was not on
    the item in [w], and none is attached twice; the state, the kind, the
    texts and the comment count are those of [w]. *)
Definition adds_within (P : string -> Prop) (w w' : World) : Prop :=
  exists added : list string,
    calls w' = (calls w ++ map add_to_labels_call added)%list
    /\ labels (item w') = (labels (item w) ++ added)%list
    /\ state (item w') = state (item w)
    /\ same_text (item w) (item w')
    /\ NoDup added
    /\ (forall l, In l added -> P l /\ has_label (item w) l = false).

(** A computation that only attaches labels, however it ends. *)
Definition only_adds {A} (P : string -> Prop) (m : M A) : Prop :=
  forall w, adds_within P w (snd (m w)).

(* ================================================================== *)
(** * Facts about the text primitives *)
(* ================================================================== *)

Section TextFacts.

Lemma startswith_iff_app (s p : string) :
  startswith s p = true <-> exists rest, s = p ++ rest.
Proof.
  revert s; induction p as [|a p IH]; intros s; simpl.
  - split; [intros _; now exists s | reflexivity].
  - destruct s as [|b s].
    + split; [discriminate | intros [rest H]; discriminate].
    + destruct (Ascii.eqb_spec a b) as [->|ne]; simpl.
      * rewrite IH. split; intros [rest H]; exists rest.
        -- now rewrite H.
        -- now injection H.
      * split; [discriminate|].
        intros [rest H]; injection H as Hab _; now elim ne.
Qed.

Lemma is_in_iff_Substring (needle hay : string) :
  is_in needle hay = true <-> Substring needle hay.
Proof.
  unfold Substring. induction hay as [|c hay IH].
  - simpl. rewrite orb_false_r, startswith_iff_app. split.
    + intros [rest H]. now exists "", rest.
    + intros [[|b before] [after H]]; [now exists after | discriminate].
  - cbn [is_in]. rewrite orb_true_iff, IH, startswith_iff_app. split.
    + intros [[rest H] | [before [after H]]].
      * now exists "", rest.
      * exists (String c before), after. simpl. now rewrite H.
    + intros [[|b before] [after H]].
      * left. now exists after.
      * right. exists before, after. simpl in H. now injection H.
Qed.

Lemma is_in_empty_hay (needle : string) :
  is_in needle "" = true <-> needle = "".
Proof.
  destruct needle; simpl; split; auto; discriminate.
Qed.

Lemma lower_empty_iff (s : string) : lower s = "" <-> s = "".
Proof. destruct s; simpl; split; auto; discriminate. Qed.

Lemma endswith_nonempty (s suffix : string) :
  endswith s suffix = true -> suffix <> "" -> s <> "".
Proof.
  intros H Hs ->. simpl in H. rewrite orb_false_r in H.
  destruct suffix; [now elim Hs | discriminate].
Qed.

Lemma mem_iff_In (x : string) (xs : list string) :
  mem x xs = true <-> In x xs.
Proof.
  unfold mem. rewrite existsb_exists. split.
  - intros [y [Hy E]]. apply String.eqb_eq in E. now subst.
  - intros H. exists x. split; [assumption | apply String.eqb_refl].
Qed.

End TextFacts.

(* ================================================================== *)
(** * The label inference engine *)
(* ================================================================== *)

Section Inference.

Variable R : catalog.

Lemma guess_labels_In (text label keyword : string) :
  In (label, keyword) (_guess_labels_from_text R text) <->
  exists keywords,
    In (label, keywords) R /\ In keyword keywords
    /\ is_in (lower keyword) (lower text) = true.
Proof.
  unfold _guess_labels_from_text. rewrite in_flat_map. split.
  - intros [[l ks] [HR Hin]]. rewrite in_flat_map in Hin.
    destruct Hin as [k [Hk Hy]].
    destruct (is_in (lower k) (lower text)) eqn:E; [|contradiction].
    destruct Hy as [Hy|[]]. injection Hy as -> ->.
    exists ks. auto.
  - intros [ks [HR [Hk E]]]. exists (label, ks). split; [assumption|].
    rewrite in_flat_map. exists keyword. split; [assumption|].
    rewrite E. now left.
Qed.

Lemma guess_labels_empty_text_nil :
  (forall label keywords keyword,
      In (label, keywords) R -> In keyword keywords -> keyword <> "") ->
  _guess_labels_from_text R "" = [].
Proof.
  intros Hne.
  destruct (_guess_labels_from_text R "") as [|[l k] rest] eqn:E;
    [reflexivity|].
  assert (Hin : In (l, k) (_guess_labels_from_text R ""))
    by (rewrite E; now left).
  apply guess_labels_In in Hin. destruct Hin as [ks [HR [Hk Hs]]].
  simpl in Hs. apply (proj1 (is_in_empty_hay _)) in Hs.
  apply (proj1 (lower_empty_iff k)) in Hs.
  elim (Hne l ks k HR Hk Hs).
Qed.

End Inference.

(** No keyword of the bot's own catalog is empty, whatever the scripts
    directory holds. *)
Lemma LABELS_MAP_keywords_nonempty (listing : list string) :
  forall label keywords keyword,
    In (label, keywords) (LABELS_MAP listing) -> In keyword keywords ->
    keyword <> "".
Proof.
  intros label keywords keyword HR Hk.
  unfold LABELS_MAP in HR. simpl in HR.
  repeat destruct HR as [HR|HR]; try contradiction;
    injection HR as <- <-; simpl in Hk;
    repeat destruct Hk as [Hk|Hk];
    try (subst keyword; discriminate); try contradiction.
  apply filter_In in Hk. destruct Hk as [_ Hk].
  apply (endswith_nonempty _ _ Hk). discriminate.
Qed.

(* ================================================================== *)
(** * The label application guard *)
(* ================================================================== *)

(** The loop over the incompatibility table runs to its end when no pair
    with [label] on the left has its right label on the item. *)
Lemma should_add_pairs_quiet (label : string) (pairs : list (string * string))
  (w : World) :
  (forall r, In (label, r) pairs -> has_label (item w) r = false) ->
  should_add_pairs label pairs w = (Returned None, w).
Proof.
  induction pairs as [|[l r] pairs IH]; intros H; [reflexivity|].
  cbn [should_add_pairs]. unfold bind at 1, get_issue.
  destruct (String.eqb_spec label l) as [->|ne]; cbn [andb].
  - rewrite (H r) by now left. apply IH. intros r' Hr'. apply H. now right.
  - apply IH. intros r' Hr'. apply H. now right.
Qed.

(** It is left by the exception as soon as one such pair fires. *)
Lemma should_add_pairs_fires (label r : string) (pairs : list (string * string))
  (w : World) :
  In (label, r) pairs -> has_label (item w) r = true ->
  should_add_pairs label pairs w = (Raised TypeError, w).
Proof.
  induction pairs as [|[l' r'] pairs IH]; intros Hin Hr; [contradiction|].
  cbn [should_add_pairs]. unfold bind at 1, get_issue.
  destruct (String.eqb label l' && has_label (item w) r') eqn:E.
  - reflexivity.
  - destruct Hin as [Hin|Hin]; [|now apply IH].
    injection Hin as -> ->. now rewrite String.eqb_refl, Hr in E.
Qed.

Lemma add_label_accepted (label : string) (w : World) :
  has_label (item w) label = false ->
  (forall r, In (label, r) ILLOGICAL_PAIRS -> has_label (item w) r = false) ->
  add_label label w = (Returned tt, attached label w).
Proof.
  intros Habsent Hquiet.
  unfold add_label, should_add, bind at 1 2, get_issue.
  rewrite Habsent. unfold bind at 1.
  rewrite (should_add_pairs_quiet _ _ _ Hquiet).
  unfold bind, get_issue, ret, log, add_to_labels, attached. cbn.
  rewrite Habsent. cbn. unfold has_label in Habsent. cbn in Habsent.
  rewrite Habsent. reflexivity.
Qed.

Lemma add_label_present (label : string) (w : World) :
  has_label (item w) label = true ->
  add_label label w = (Returned tt, skipped label w).
Proof.
  intros Hpresent.
  unfold add_label, should_add, bind at 1 2, get_issue.
  rewrite Hpresent.
  unfold bind, ret, log, skipped. cbn. now rewrite <- app_assoc.
Qed.

Lemma add_label_illogical (label r : string) (w : World) :
  has_label (item w) label = false ->
  In (label, r) ILLOGICAL_PAIRS -> has_label (item w) r = true ->
  add_label label w = (Raised TypeError, w).
Proof.
  intros Habsent Hin Hr.
  unfold add_label, should_add, bind at 1 2, get_issue.
  rewrite Habsent. unfold bind at 1.
  now rewrite (should_add_pairs_fires _ _ _ _ Hin Hr).
Qed.

Lemma pair_fires_false (issue : Issue) (label : string) :
  pair_fires issue label = false ->
  forall r, In (label, r) ILLOGICAL_PAIRS -> has_label issue r = false.
Proof.
  intros H r Hin. unfold pair_fires in H.
  destruct (has_label issue r) eqn:E; [|reflexivity].
  assert (X : existsb (fun '(l, r) => String.eqb label l && has_label issue r)
                      ILLOGICAL_PAIRS = true).
  { apply existsb_exists. exists (label, r). split; [assumption|].
    now rewrite String.eqb_refl, E. }
  congruence.
Qed.

Lemma pair_fires_true (issue : Issue) (label : string) :
  pair_fires issue label = true ->
  exists r, In (label, r) ILLOGICAL_PAIRS /\ has_label issue r = true.
Proof.
  intros H. unfold pair_fires in H. apply existsb_exists in H.
  destruct H as [[l r] [Hin H]]. apply andb_true_iff in H.
  destruct H as [El Hr]. apply String.eqb_eq in El. subst l.
  now exists r.
Qed.

(** The three ways an attempt can end. *)
Lemma add_label_cases (label : string) (w : World) :
  add_label label w =
    if has_label (item w) label then (Returned tt, skipped label w)
    else if pair_fires (item w) label then (Raised TypeError, w)
    else (Returned tt, attached label w).
Proof.
  destruct (has_label (item w) label) eqn:Hl.
  - now apply add_label_present.
  - destruct (pair_fires (item w) label) eqn:Hp.
    + apply pair_fires_true in Hp. destruct Hp as [r [Hin Hr]].
      now apply add_label_illogical with r.
    + apply add_label_accepted; [assumption|]. now apply pair_fires_false.
Qed.

(* ================================================================== *)
(** * What the label phase leaves alone *)
(* ================================================================== *)

Lemma same_text_refl (i : Issue) : same_text i i.
Proof. now repeat split. Qed.

Lemma same_text_trans (i j k : Issue) :
  same_text i j -> same_text j k -> same_text i k.
Proof.
  unfold same_text. intros [a [b [c d]]] [a' [b' [c' d']]].
  repeat split; congruence.
Qed.

Lemma keeps_ret {A} (a : A) : keeps_text (ret a).
Proof. intros w. apply same_text_refl. Qed.

Lemma keeps_raise {A} (e : Exn) : keeps_text (@raise A e).
Proof. intros w. apply same_text_refl. Qed.

Lemma keeps_get_issue : keeps_text get_issue.
Proof. intros w. apply same_text_refl. Qed.

Lemma keeps_log (msg : Message) : keeps_text (log msg).
Proof. intros w. apply same_text_refl. Qed.

Lemma keeps_add_to_labels (label : string) : keeps_text (add_to_labels label).
Proof. intros w. now repeat split. Qed.

Lemma keeps_bind {A B} (m : M A) (k : A -> M B) :
  keeps_text m -> (forall a, keeps_text (k a)) -> keeps_text (bind m k).
Proof.
  intros Hm Hk w. unfold bind. specialize (Hm w).
  destruct (m w) as [[a|e] w']; cbn in *; [|assumption].
  eapply same_text_trans; [exact Hm | apply Hk].
Qed.

Lemma keeps_when (cond : bool) (body : M unit) :
  keeps_text body -> keeps_text (when cond body).
Proof. destruct cond; [trivial | intros _; apply keeps_ret]. Qed.

Lemma keeps_for_each {A} (xs : list A) (body : A -> M unit) :
  (forall x, keeps_text (body x)) -> keeps_text (for_each xs body).
Proof.
  intros H. induction xs as [|x xs IH]; cbn [for_each].
  - apply keeps_ret.
  - apply keeps_bind; auto.
Qed.

#[local] Hint Resolve keeps_ret keeps_raise keeps_get_issue keeps_log
  keeps_add_to_labels keeps_bind keeps_when keeps_for_each : frame.

Lemma keeps_add_label (label : string) : keeps_text (add_label label).
Proof.
  intros w. rewrite add_label_cases.
  destruct (has_label (item w) label); [apply same_text_refl|].
  destruct (pair_fires (item w) label); [apply same_text_refl|].
  now repeat split.
Qed.
#[local] Hint Resolve keeps_add_label : frame.

Lemma keeps_add_labels_from_text (R : catalog) (text : string) :
  keeps_text (add_labels_from_text R text).
Proof.
  unfold add_labels_from_text. apply keeps_for_each.
  intros [label keyword]. auto with frame.
Qed.
#[local] Hint Resolve keeps_add_labels_from_text : frame.

Lemma keeps_add_labels_from_new_body (R : catalog) (text : string) :
  keeps_text (add_labels_from_new_body R text).
Proof.
  unfold add_labels_from_new_body, os_line, bug_fix_line, type_line.
  repeat (apply keeps_bind; [auto with frame | intros ?]);
    repeat match goal with
           | |- keeps_text (match ?x with _ => _ end) => destruct x
           | |- keeps_text (bind _ _) => apply keeps_bind; [|intros ?]
           end; auto with frame.
Qed.
#[local] Hint Resolve keeps_add_labels_from_new_body : frame.

Lemma same_text_missing_python_h (i i' : Issue) :
  same_text i i' -> missing_python_h i' = missing_python_h i.
Proof.
  intros [_ [Ht [Hb _]]]. unfold missing_python_h. now rewrite Ht, Hb.
Qed.

(* ================================================================== *)
(** * Facts about the template-field search *)
(* ================================================================== *)

Module ReFacts.
Import Re.

Lemma whole_lines_cons (c : ascii) (s : string) :
  whole_lines (String c s) = true ->
  (s = "" /\ c = LF) \/ (s <> "" /\ whole_lines s = true).
Proof.
  destruct s as [|d s]; cbn [whole_lines]; intros H.
  - left. split; [reflexivity | now apply Ascii.eqb_eq].
  - right. split; [discriminate | assumption].
Qed.

Lemma whole_lines_tail (c : ascii) (s : string) :
  whole_lines (String c s) = true -> whole_lines s = true.
Proof.
  intros H. destruct (whole_lines_cons _ _ H) as [[-> _]|[_ H']]; auto.
Qed.

Lemma lazy_line_no_newline (s : string) :
  no_newline s = true -> lazy_line s = None.
Proof.
  induction s as [|c s IH]; [reflexivity|]. cbn [no_newline lazy_line].
  intros H. apply andb_true_iff in H. destruct H as [Hc Hs].
  apply negb_true_iff in Hc. rewrite Hc, (IH Hs). reflexivity.
Qed.

Lemma match_here_no_newline (lit s : string) :
  no_newline s = true -> match_here lit s = None.
Proof.
  revert s. induction lit as [|a lit IH]; intros s H; cbn [match_here].
  - now apply lazy_line_no_newline.
  - destruct s as [|b s]; [reflexivity|].
    cbn [no_newline] in H. apply andb_true_iff in H. destruct H as [_ Hs].
    rewrite (IH s Hs). now destruct (Ascii.eqb a b).
Qed.

Lemma search_no_newline (lit s : string) :
  no_newline s = true -> search lit s = None.
Proof.
  induction s as [|c s IH]; intros H; cbn [search].
  - now rewrite match_here_no_newline.
  - rewrite match_here_no_newline by assumption.
    cbn [no_newline] in H. apply andb_true_iff in H. now apply IH.
Qed.

(** What [.*?\n] consumes: a run without line feed, then a line feed. *)
Lemma lazy_line_some (s m : string) :
  lazy_line s = Some m ->
  exists line rest,
    m = line ++ nl /\ no_newline line = true /\ s = m ++ rest.
Proof.
  revert m. induction s as [|c s IH]; intros m H; [discriminate|].
  cbn [lazy_line] in H. destruct (Ascii.eqb c LF) eqn:E.
  - injection H as <-. apply Ascii.eqb_eq in E. subst c.
    now exists "", s.
  - destruct (lazy_line s) as [m'|]; [|discriminate].
    injection H as <-. destruct (IH m' eq_refl) as [line [rest [-> [Hl ->]]]].
    exists (String c line), rest. repeat split.
    cbn [no_newline]. now rewrite E, Hl.
Qed.

Lemma match_here_some (lit s m : string) :
  match_here lit s = Some m ->
  exists line rest,
    m = lit ++ line ++ nl /\ no_newline line = true /\ s = m ++ rest.
Proof.
  revert s m. induction lit as [|a lit IH]; intros s m H; cbn [match_here] in H.
  - now apply lazy_line_some.
  - destruct s as [|b s]; [discriminate|].
    destruct (Ascii.eqb_spec a b) as [<-|ne]; [|discriminate].
    destruct (match_here lit s) as [m'|] eqn:E; [|discriminate].
    injection H as <-.
    destruct (IH s m' E) as [line [rest [-> [Hl ->]]]].
    now exists line, rest.
Qed.

(** A match is a piece of the text that starts with the field marker
    and ends with the first line feed after it. *)
Lemma search_some (lit s m : string) :
  search lit s = Some m ->
  exists before line after,
    s = before ++ m ++ after /\ m = lit ++ line ++ nl
    /\ no_newline line = true.
Proof.
  induction s as [|c s IH]; cbn [search]; intros H.
  - destruct (match_here lit "") as [m'|] eqn:E; [|discriminate].
    injection H as ->. destruct (match_here_some _ _ _ E) as [l [r [Hm [Hl Hs]]]].
    now exists "", l, r.
  - destruct (match_here lit (String c s)) as [m'|] eqn:E.
    + injection H as ->.
      destruct (match_here_some _ _ _ E) as [l [r [Hm [Hl Hs]]]].
      now exists "", l, r.
    + destruct (IH H) as [before [l [after [-> [Hm Hl]]]]].
      now exists (String c before), l, after.
Qed.

Lemma lazy_line_complete (line rest : string) :
  exists m, lazy_line (line ++ nl ++ rest) = Some m.
Proof.
  induction line as [|c line [m IH]]; cbn [append lazy_line].
  - cbn. now exists nl.
  - destruct (Ascii.eqb c LF); [now exists nl|].
    rewrite IH. now exists (String c m).
Qed.

Lemma match_here_complete (lit line rest : string) :
  exists m, match_here lit (lit ++ line ++ nl ++ rest) = Some m.
Proof.
  induction lit as [|a lit [m IH]]; cbn [append match_here].
  - apply lazy_line_complete.
  - rewrite Ascii.eqb_refl, IH. now exists (String a m).
Qed.

(** A field marker that is followed, further on, by a line feed is
    found: the search gives the leftmost such line. *)
Lemma search_complete (lit before line after : string) :
  exists m, search lit (before ++ lit ++ line ++ nl ++ after) = Some m.
Proof.
  induction before as [|c before [m IH]].
  - cbn [append]. destruct (match_here_complete lit line after) as [m Hm].
    exists m. destruct (lit ++ line ++ nl ++ after); cbn [search];
      now rewrite Hm.
  - cbn [append search].
    destruct (match_here lit _) as [m'|]; [now exists m' | now exists m].
Qed.

Lemma lazy_line_app (x y : string) :
  whole_lines x = true -> x <> "" -> lazy_line (x ++ y) = lazy_line x.
Proof.
  induction x as [|c x IH]; intros Hw Hne; [now elim Hne|].
  cbn [append lazy_line]. destruct (Ascii.eqb_spec c LF) as [->|ne];
    [reflexivity|].
  destruct (whole_lines_cons _ _ Hw) as [[_ Hc]|[Hx Hw']]; [now elim ne|].
  now rewrite IH.
Qed.

Lemma match_here_app (lit x y : string) :
  no_newline lit = true -> whole_lines x = true -> x <> "" ->
  match_here lit (x ++ y) = match_here lit x.
Proof.
  revert x. induction lit as [|a lit IH]; intros x Hlit Hw Hne;
    cbn [match_here].
  - now apply lazy_line_app.
  - destruct x as [|b x]; [now elim Hne|]. cbn [append].
    destruct (Ascii.eqb_spec a b) as [<-|ne]; [|reflexivity].
    cbn [no_newline] in Hlit. apply andb_true_iff in Hlit.
    destruct Hlit as [Ha Hlit]. apply negb_true_iff in Ha.
    destruct (whole_lines_cons _ _ Hw) as [[_ Hc]|[Hx Hw']].
    + subst a. now rewrite Ascii.eqb_refl in Ha.
    + now rewrite IH.
Qed.

(** A last line without its line feed is invisible to the search. *)
Lemma search_app_unterminated (lit lines last : string) :
  no_newline lit = true -> whole_lines lines = true ->
  no_newline last = true ->
  search lit (lines ++ last) = search lit lines.
Proof.
  intros Hlit Hw Hlast. induction lines as [|c lines IH].
  - cbn [append]. rewrite search_no_newline by assumption.
    symmetry. now apply search_no_newline.
  - cbn [append search].
    change (String c (lines ++ last)) with (String c lines ++ last).
    rewrite match_here_app by (assumption || discriminate).
    now rewrite IH by (eapply whole_lines_tail; eassumption).
Qed.

End ReFacts.

(** ** Uniqueness of the matched line *)

Lemma append_assoc (a b c : string) : (a ++ b) ++ c = a ++ b ++ c.
Proof. induction a as [|x a IH]; cbn; [reflexivity | now rewrite IH]. Qed.

Lemma search_some_leftmost (lit s m : string) :
  Re.search lit s = Some m ->
  exists before line after,
    s = before ++ lit ++ line ++ nl ++ after
    /\ m = lit ++ line ++ nl
    /\ no_newline line = true
    /\ forall b' l' a',
         s = b' ++ lit ++ l' ++ nl ++ a' ->
         (String.length before <= String.length b')%nat.
Proof.
  assert (Hhere : forall t, Re.match_here lit t = Some m ->
            exists line after,
              t = "" ++ lit ++ line ++ nl ++ after
              /\ m = lit ++ line ++ nl /\ no_newline line = true).
  { intros t Ht.
    destruct (ReFacts.match_here_some _ _ _ Ht) as [l [r [Hm [Hl Hs]]]].
    exists l, r. repeat split; trivial.
    rewrite Hs, Hm. cbn [append]. now rewrite !append_assoc. }
  induction s as [|c s IH]; cbn [Re.search]; intros H.
  - destruct (Re.match_here lit "") as [m'|] eqn:E; [|discriminate].
    injection H as ->. destruct (Hhere _ E) as [l [r [Hs [Hm Hl]]]].
    exists "", l, r. repeat split; trivial. intros; apply Nat.le_0_l.
  - destruct (Re.match_here lit (String c s)) as [m'|] eqn:E.
    + injection H as ->. destruct (Hhere _ E) as [l [r [Hs [Hm Hl]]]].
      exists "", l, r. repeat split; trivial. intros; apply Nat.le_0_l.
    + destruct (IH H) as [before [l [after [Hs [Hm [Hl Hleft]]]]]].
      exists (String c before), l, after. repeat split; trivial.
      * cbn [append]. now rewrite <- Hs.
      * intros b' l' a' Hb'. destruct b' as [|c' b'].
        -- cbn [append] in Hb'. rewrite Hb' in E.
           destruct (ReFacts.match_here_complete lit l' a') as [m' Hm'].
           congruence.
        -- cbn [append] in Hb'. injection Hb' as _ Hb'.
           cbn [String.length]. apply le_n_S. eapply Hleft. exact Hb'.
Qed.

Lemma append_inv_head (a x y : string) : a ++ x = a ++ y -> x = y.
Proof.
  induction a as [|c a IH]; cbn [append]; intros H; [exact H|].
  injection H as H. now apply IH.
Qed.

Lemma append_eq_same_length (a b x y : string) :
  a ++ x = b ++ y -> String.length a = String.length b -> a = b /\ x = y.
Proof.
  revert b. induction a as [|c a IH]; intros [|d b] H Hlen;
    try discriminate; cbn [append] in H.
  - now split.
  - injection H as -> H. injection Hlen as Hlen.
    destruct (IH b H Hlen) as [-> ->]. now split.
Qed.

(** A text has one first line: the part before its first line feed. *)
Lemma first_line_unique (l1 l2 a1 a2 : string) :
  no_newline l1 = true -> no_newline l2 = true ->
  l1 ++ nl ++ a1 = l2 ++ nl ++ a2 -> l1 = l2.
Proof.
  revert l2. induction l1 as [|c l1 IH]; intros [|d l2] H1 H2 H;
    cbn [append nl] in H; cbn [no_newline] in H1, H2.
  - reflexivity.
  - injection H as <- _. now rewrite Ascii.eqb_refl in H2.
  - injection H as -> _. now rewrite Ascii.eqb_refl in H1.
  - injection H as -> H.
    apply andb_true_iff in H1. apply andb_true_iff in H2.
    f_equal. now apply IH.
Qed.

(** The search returns the line of the leftmost marker that has a line
    feed after it, from the marker to the first line feed. *)
Lemma search_leftmost_line (lit text before line after : string) :
  text = before ++ lit ++ line ++ nl ++ after ->
  no_newline line = true ->
  (forall b' l' a',
      text = b' ++ lit ++ l' ++ nl ++ a' ->
      (String.length before <= String.length b')%nat) ->
  Re.search lit text = Some (lit ++ line ++ nl).
Proof.
  intros Htext Hline Hleft.
  destruct (ReFacts.search_complete lit before line after) as [m Hm].
  rewrite <- Htext in Hm. rewrite Hm. f_equal.
  destruct (search_some_leftmost _ _ _ Hm)
    as [b0 [l0 [a0 [Hs [Hm0 [Hl0 Hleft0]]]]]].
  assert (Hlen : String.length before = String.length b0).
  { apply Nat.le_antisymm; [now apply (Hleft b0 l0 a0) |
                            now apply (Hleft0 before line after)]. }
  rewrite Htext in Hs.
  destruct (append_eq_same_length _ _ _ _ Hs Hlen) as [_ Hrest].
  apply append_inv_head in Hrest.
  rewrite Hm0. now rewrite (first_line_unique _ _ _ _ Hline Hl0 Hrest).
Qed.

(* ================================================================== *)
(** * Label inference (section 4.1 of the specification) *)
(* ================================================================== *)

(** C1.  For every text and every catalog, the engine yields (label,
    keyword) exactly when the keyword is listed under the label in the
    catalog and its lower-cased form occurs in the lower-cased text.  In
    particular, on the empty text it yields no pair: the catalog the bot
    builds, the literal table extended by the [.py] names of whatever the
    scripts directory lists, has no empty keyword. *)
Theorem guess_labels_from_text_spec :
  (forall (R : catalog) (text label keyword : string),
      In (label, keyword) (_guess_labels_from_text R text) <->
      exists keywords,
        In (label, keywords) R /\ In keyword keywords
        /\ Substring (lower keyword) (lower text))
  /\ (forall listing : list string,
         _guess_labels_from_text (LABELS_MAP listing) "" = []).
Proof.
  split.
  - intros R text label keyword. rewrite guess_labels_In.
    split; intros [ks [HR [Hk H]]]; exists ks; repeat split; trivial;
      now apply is_in_iff_Substring.
  - intros listing. apply guess_labels_empty_text_nil.
    apply LABELS_MAP_keywords_nonempty.
Qed.

(* ================================================================== *)
(** * The missing-header detector (section 4.4) *)
(* ================================================================== *)

Lemma on_new_issue_run (w : World) :
  on_new_issue w =
    (Returned tt, if missing_python_h (item w) then replied w else searched w).
Proof.
  unfold on_new_issue, bind at 1 2, get_issue, log. cbn [item].
  destruct (missing_python_h (item w)); [|reflexivity].
  unfold bind, log, create_comment, edit, replied. cbn.
  now rewrite <- !app_assoc.
Qed.

Lemma missing_python_h_iff (issue : Issue) :
  missing_python_h issue = true <->
  Substring "missing python.h" (lower (title issue))
  \/ Substring "missing python.h" (lower (body issue))
  \/ Substring "python.h: no such file or directory" (lower (title issue))
  \/ Substring "python.h: no such file or directory" (lower (body issue))
  \/ Substring ("#include<Python.h>" ++ nl ++ "^~~~")
               (remove_spaces (body issue))
  \/ Substring ("#include<Python.h>" ++ crnl ++ "^~~~")
               (remove_spaces (body issue)).
Proof.
  unfold missing_python_h. rewrite !orb_true_iff, !is_in_iff_Substring.
  tauto.
Qed.

(** C3, counterexample.  A compiler signature in the title alone does not
    fire the detector, although the title with its spaces removed contains
    it; and a tab before the caret line is not removed, so the same
    signature in the body goes unnoticed, while with a space in place of
    the tab it is found. *)
Lemma missing_python_h_signature_not_found :
  Substring ("#include<Python.h>" ++ nl ++ "^~~~")
            (remove_spaces (include_line ++ nl ++ "^~~~"))
  /\ calls (snd (on_new_issue
                   (fetched (new_issue (include_line ++ nl ++ "^~~~") "" []))))
     = []
  /\ calls (snd (on_new_issue
                   (fetched (new_issue "build"
                               (include_line ++ nl ++ TAB ++ "^~~~") []))))
     = []
  /\ calls (snd (on_new_issue
                   (fetched (new_issue "build"
                               (include_line ++ nl ++ " ^~~~") []))))
     <> [].
Proof.
  split; [|split; [|split]].
  - apply is_in_iff_Substring. vm_compute. reflexivity.
  - vm_compute. reflexivity.
  - vm_compute. reflexivity.
  - vm_compute. discriminate.
Qed.

(** C3, as amended.  On a new issue the detector fires, that is, the
    reply is posted and the issue closed, if and only if the lower-cased
    title or body contains [missing python.h], or the lower-cased title or
    body contains [python.h: no such file or directory], or the body (not
    the title) with its space characters (and no other white space)
    removed contains [#include<Python.h>] followed at once by a line
    break, either LF or CR LF, and the marker [^~~~]. *)
Theorem on_new_issue_fires_iff (issue : Issue) :
  calls (snd (on_new_issue (fetched issue)))
  = [create_comment_call REPLY_MISSING_PYTHON_HEADERS; edit_call "closed"]
  <->
  Substring "missing python.h" (lower (title issue))
  \/ Substring "missing python.h" (lower (body issue))
  \/ Substring "python.h: no such file or directory" (lower (title issue))
  \/ Substring "python.h: no such file or directory" (lower (body issue))
  \/ Substring ("#include<Python.h>" ++ nl ++ "^~~~")
               (remove_spaces (body issue))
  \/ Substring ("#include<Python.h>" ++ crnl ++ "^~~~")
               (remove_spaces (body issue)).
Proof.
  rewrite <- missing_python_h_iff, on_new_issue_run. cbn [fetched item].
  destruct (missing_python_h issue); cbn; split; trivial; discriminate.
Qed.

(* ================================================================== *)
(** * The dispatcher on a new issue (sections 4.4 and 4.5) *)
(* ================================================================== *)

Lemma keeps_label_phase (R : catalog) (stype : string) (issue : Issue) :
  keeps_text (label_phase R stype issue).
Proof. unfold label_phase. auto 10 with frame. Qed.

Lemma main_new_issue (R : catalog) (w : World) :
  comments (item w) = 0%Z -> is_issue (item w) = true ->
  main R w = (label_phase R "issue" (item w) ;; on_new_issue) w.
Proof.
  intros Hc Hi. unfold main, label_phase, bind at 1, get_issue.
  unfold is_new. rewrite Hc, Hi. cbn [Z.eqb when].
  assert (Hp : is_pr (item w) = false)
    by (unfold is_issue in Hi; now apply negb_true_iff in Hi).
  rewrite Hp. cbn [when].
  unfold bind.
  destruct (log (msg_running "issue") w) as [[[]|e] w1]; [|reflexivity].
  destruct (log (msg_new "issue" (body (item w))) w1) as [[[]|e] w2];
    [|reflexivity].
  destruct (add_labels_from_text R (title (item w)) w2) as [[[]|e] w3];
    [|reflexivity].
  destruct (add_labels_from_new_body R (body (item w)) w3) as [[[]|e] w4];
    [|reflexivity].
  destruct (on_new_issue w4) as [[[]|e] w5]; reflexivity.
Qed.

(** X11.  On a new issue, once title inference and template extraction
    have returned (leaving the world [w1]), [main] ends with the detector
    and nothing else.  When the detector matches the fetched issue, exactly
    two calls follow those of the label phase, the canned reply and then
    the change of state to closed; when it does not match, no call
    follows: no comment, no change of state. *)
Theorem new_issue_reply_then_close (R : catalog) (w w1 : World) :
  comments (item w) = 0%Z ->
  is_issue (item w) = true ->
  label_phase R "issue" (item w) w = (Returned tt, w1) ->
  main R w = on_new_issue w1
  /\ on_new_issue w1
     = (Returned tt,
        if missing_python_h (item w) then replied w1 else searched w1)
  /\ calls (replied w1)
     = (calls w1 ++ [create_comment_call REPLY_MISSING_PYTHON_HEADERS;
                     edit_call "closed"])%list
  /\ calls (searched w1) = calls w1
  /\ state (item (searched w1)) = state (item w1).
Proof.
  intros Hc Hi Hphase.
  assert (Hsame : missing_python_h (item w1) = missing_python_h (item w)).
  { apply same_text_missing_python_h.
    pose proof (keeps_label_phase R "issue" (item w) w) as H.
    now rewrite Hphase in H. }
  split; [|split; [|repeat split]].
  - rewrite main_new_issue by assumption. unfold bind. now rewrite Hphase.
  - rewrite on_new_issue_run. now rewrite Hsame.
Qed.

Lemma new_issue_reply_then_close_witness :
  main (LABELS_MAP []) (fetched headers_issue)
  = (Returned tt, replied headers_issue_labelled).
Proof.
  destruct (new_issue_reply_then_close (LABELS_MAP []) (fetched headers_issue)
              headers_issue_labelled) as [Hmain [Hrun _]].
  - reflexivity.
  - reflexivity.
  - vm_compute. reflexivity.
  - rewrite Hmain. exact Hrun.
Defined.

(** C4, the code at the failing input.  A new issue that carries
    [enhancement] and has the title [install error: missing Python.h] is
    matched by the detector, yet no reply is posted and the issue is not
    closed: title inference proposes [bug] for the keyword
    [install error], the pair [("bug", "enhancement")] fires and the run
    raises [TypeError] before [on_new_issue] is reached.  The same issue
    without the label gets [bug], then the reply, then the change of
    state. *)
Theorem main_aborts_before_detector :
  let issue := new_issue "install error: missing Python.h" "" ["enhancement"] in
  missing_python_h issue = true
  /\ main (LABELS_MAP []) (fetched issue)
     = (Raised TypeError,
        mkWorld issue [] [msg_running "issue"; msg_new "issue" ""])
  /\ fst (main (LABELS_MAP [])
               (fetched (new_issue "install error: missing Python.h" "" [])))
     = Returned tt
  /\ calls (snd (main (LABELS_MAP [])
                   (fetched (new_issue "install error: missing Python.h" ""
                                       []))))
     = [add_to_labels_call "bug";
        create_comment_call REPLY_MISSING_PYTHON_HEADERS;
        edit_call "closed"].
Proof. cbv zeta. repeat split; vm_compute; reflexivity. Qed.

(* ================================================================== *)
(** * The template fields (section 4.3) *)
(* ================================================================== *)

(** C5.  Take a body with a [* Bug fix:] line that ends in a line feed,
    and let the matched line be the first such line: the leftmost marker
    that has a line feed after it, up to that line feed.  On a pull
    request that carries neither [bug] nor [enhancement] when the rule
    runs, the rule proposes exactly one label, which is attached: [bug]
    when the lower-cased matched line contains [yes], [enhancement]
    otherwise; text outside the matched line plays no part.  Every body
    that holds the marker with a line feed after it has such a first
    line.  On an issue, or when either label is present, the rule proposes
    nothing: it logs that it found nothing and makes no call. *)
Theorem bug_fix_line_exclusive (text : string) (w : World) :
  (forall before line after : string,
      text = before ++ "* Bug fix:" ++ line ++ nl ++ after ->
      no_newline line = true ->
      (forall b' l' a',
          text = b' ++ "* Bug fix:" ++ l' ++ nl ++ a' ->
          (String.length before <= String.length b')%nat) ->
      is_pr (item w) = true ->
      has_label (item w) "bug" = false ->
      has_label (item w) "enhancement" = false ->
      let label :=
        if is_in "yes" (lower ("* Bug fix:" ++ line ++ nl))
        then "bug" else "enhancement" in
      bug_fix_line text w
      = (Returned tt,
         mkWorld (set_labels (item w) (labels (item w) ++ [label]))
                 (calls w ++ [add_to_labels_call label])
                 (stdout w ++ [msg_search_bug_fix; msg_found;
                               msg_add_label label])))
  /\ (forall b l a : string,
         text = b ++ "* Bug fix:" ++ l ++ nl ++ a ->
         exists before line after,
           text = before ++ "* Bug fix:" ++ line ++ nl ++ after
           /\ no_newline line = true
           /\ forall b' l' a',
                text = b' ++ "* Bug fix:" ++ l' ++ nl ++ a' ->
                (String.length before <= String.length b')%nat)
  /\ (is_pr (item w) = false \/ has_label (item w) "bug" = true
      \/ has_label (item w) "enhancement" = true ->
      bug_fix_line text w
      = (Returned tt,
         mkWorld (item w) (calls w)
                 (stdout w ++ [msg_search_bug_fix; msg_not_found]))).
Proof.
  split; [|split].
  - intros before line after Htext Hline Hleft Hpr Hbug Henh label.
    pose proof (search_leftmost_line _ _ _ _ _ Htext Hline Hleft) as Hs.
    unfold bug_fix_line, bind at 1 2, log, get_issue. cbn [item].
    rewrite Hs, Hpr, Hbug, Henh. cbn [andb negb].
    unfold bind at 1, log. cbn [item calls stdout].
    set (w' := mkWorld (item w) (calls w)
                       ((stdout w ++ [msg_search_bug_fix]) ++ [msg_found])).
    assert (E : add_label label w' = (Returned tt, attached label w')).
    { apply add_label_accepted; subst label w'; cbn [item].
      - now destruct (is_in "yes" _).
      - intros r Hin.
        destruct (is_in "yes" _); cbn in Hin;
          repeat destruct Hin as [Hin|Hin]; try discriminate;
          try contradiction.
        now injection Hin as <-. }
    subst label. destruct (is_in "yes" _);
      rewrite E; unfold attached, w'; cbn; now rewrite <- !app_assoc.
  - intros b l a Htext.
    destruct (ReFacts.search_complete "* Bug fix:" b l a) as [m Hm].
    rewrite <- Htext in Hm.
    destruct (search_some_leftmost _ _ _ Hm)
      as [before [line [after [Hs [_ [Hl Hleft]]]]]].
    now exists before, line, after.
  - intros H.
    unfold bug_fix_line, bind at 1 2, log, get_issue. cbn [item].
    destruct (Re.search "* Bug fix:" text) as [line|].
    + replace (is_pr (item w) && negb (has_label (item w) "bug")
               && negb (has_label (item w) "enhancement")) with false.
      * unfold log. cbn. now rewrite <- app_assoc.
      * destruct H as [-> | [-> | ->]]; cbn;
          now rewrite ?andb_false_r.
    + unfold log. cbn. now rewrite <- app_assoc.
Qed.

Lemma bug_fix_line_exclusive_witness :
  bug_fix_line bug_fix_yes (fetched (new_pull_request "fix" bug_fix_yes []))
  = (Returned tt,
     mkWorld (new_pull_request "fix" bug_fix_yes ["bug"])
             [add_to_labels_call "bug"]
             [msg_search_bug_fix; msg_found; msg_add_label "bug"])
  /\ bug_fix_line bug_fix_no_body
       (fetched (new_pull_request "fix" bug_fix_no_body []))
     = (Returned tt,
        mkWorld (new_pull_request "fix" bug_fix_no_body ["enhancement"])
                [add_to_labels_call "enhancement"]
                [msg_search_bug_fix; msg_found; msg_add_label "enhancement"])
  /\ bug_fix_line bug_fix_yes (fetched (new_issue "fix" bug_fix_yes []))
     = (Returned tt,
        mkWorld (new_issue "fix" bug_fix_yes []) []
                [msg_search_bug_fix; msg_not_found]).
Proof.
  split; [|split].
  - apply (proj1 (bug_fix_line_exclusive bug_fix_yes
                    (fetched (new_pull_request "fix" bug_fix_yes [])))
             "" " yes" "");
      try reflexivity.
    intros; apply Nat.le_0_l.
  - apply (proj1 (bug_fix_line_exclusive bug_fix_no_body
                    (fetched (new_pull_request "fix" bug_fix_no_body [])))
             ("yes, please merge" ++ nl) " no" ("* Bug fix: yes" ++ nl));
      try reflexivity.
    intros b' l' a' H.
    destruct b' as [|c0 [|c1 [|c2 [|c3 [|c4 [|c5 [|c6 [|c7 [|c8 [|c9
            [|c10 [|c11 [|c12 [|c13 [|c14 [|c15 [|c16 [|c17 b']]]]]]]]]]]]]]]]]];
      try discriminate H.
    cbn [String.length append nl]. repeat apply le_n_S. apply Nat.le_0_l.
  - apply (proj2 (proj2 (bug_fix_line_exclusive bug_fix_yes
                    (fetched (new_issue "fix" bug_fix_yes []))))).
    left. reflexivity.
Defined.

(* ================================================================== *)
(** * The guard: idempotence and the incompatibility table (section 4.2) *)
(* ================================================================== *)

Lemma has_label_attached_self (label : string) (w : World) :
  has_label (item (attached label w)) label = true.
Proof.
  unfold has_label, attached. cbn [item labels set_labels].
  apply mem_iff_In, in_or_app. right. now left.
Qed.

Lemma has_label_attached_other (label other : string) (w : World) :
  has_label (item w) other = true ->
  has_label (item (attached label w)) other = true.
Proof.
  unfold has_label, attached. cbn [item labels set_labels].
  rewrite !mem_iff_In. intros H. apply in_or_app. now left.
Qed.

(** C2, the code at the failing input.  For every pair of the table, on
    an item that carries the right label only, proposing the left label
    does not end in a rejection: the attempt raises [TypeError] out of
    [should_add], before anything is logged or decided.  So the run of
    [main] on a new issue that carries [enhancement] and whose title
    holds the keyword [crash] of the label [bug] aborts, with no call
    made. *)
Theorem add_label_illogical_pair_raises :
  Forall (fun '(left_label, right_label) =>
            let w := fetched (new_issue "t" "b" [right_label]) in
            add_label left_label w = (Raised TypeError, w)
            /\ should_add left_label w = (Raised TypeError, w))
         ILLOGICAL_PAIRS
  /\ (let w := fetched (new_issue "crash on startup" "" ["enhancement"]) in
      fst (main (LABELS_MAP []) w) = Raised TypeError
      /\ calls (snd (main (LABELS_MAP []) w)) = []
      /\ item (snd (main (LABELS_MAP []) w)) = item w).
Proof.
  split; [repeat constructor|].
  cbv zeta. repeat split; vm_compute; reflexivity.
Qed.

(** C6, the code at the failing input.  On an item that carries [tests],
    the line [* Type: doc, wheels] makes the first proposal, [doc], raise
    [TypeError]; [wheels], although found in the line, is never proposed:
    no call is made and nothing is logged after [found], and [main]
    aborts there.  On an item without labels the same line attaches
    both. *)
Theorem type_line_aborts_on_illogical_pair :
  let text := "* Type: doc, wheels" ++ nl in
  type_line text (fetched (new_issue "t" text ["tests"]))
  = (Raised TypeError,
     mkWorld (new_issue "t" text ["tests"]) [] [msg_search_type; msg_found])
  /\ fst (main (LABELS_MAP []) (fetched (new_issue "t" text ["tests"])))
     = Raised TypeError
  /\ calls (snd (main (LABELS_MAP []) (fetched (new_issue "t" text ["tests"]))))
     = []
  /\ type_line text (fetched (new_issue "t" text []))
     = (Returned tt,
        mkWorld (new_issue "t" text ["doc"; "wheels"])
                [add_to_labels_call "doc"; add_to_labels_call "wheels"]
                [msg_search_type; msg_found;
                 msg_add_label "doc"; msg_add_label "wheels"]).
Proof. cbv zeta. repeat split; vm_compute; reflexivity. Qed.

(** C7, counterexample.  On an item that already carries the label, two
    attempts make no call at all, not one. *)
Lemma add_label_twice_present_no_call :
  length (calls (snd ((add_label "bug" ;; add_label "bug")
                        (fetched (new_issue "t" "b" ["bug"])))))
  <> 1%nat.
Proof. vm_compute. discriminate. Qed.

(** C7, as amended.  For every item and label, two attempts to add the
    label make at most one call, and that call adds the label.  When the
    label is absent and no pair of the table fires for it, the first
    attempt attaches it with one call and the guard rejects the second
    because the label is now present.  When the label is already present,
    each attempt is rejected, and a rejected attempt makes no call and
    leaves the item as it is.  When the label is absent and a pair of the
    table fires for it, no call is made and the item is left as it is. *)
Theorem add_label_idempotent (label : string) (w : World) :
  (calls (snd ((add_label label ;; add_label label) w)) = calls w
   \/ calls (snd ((add_label label ;; add_label label) w))
      = (calls w ++ [add_to_labels_call label])%list)
  /\ (has_label (item w) label = false ->
      (forall r, In (label, r) ILLOGICAL_PAIRS ->
                 has_label (item w) r = false) ->
      (add_label label ;; add_label label) w
      = (Returned tt, skipped label (attached label w))
      /\ calls (skipped label (attached label w))
         = (calls w ++ [add_to_labels_call label])%list)
  /\ (has_label (item w) label = true ->
      add_label label w = (Returned tt, skipped label w)
      /\ (add_label label ;; add_label label) w
         = (Returned tt, skipped label (skipped label w))
      /\ calls (skipped label (skipped label w)) = calls w
      /\ item (skipped label (skipped label w)) = item w)
  /\ (has_label (item w) label = false ->
      (exists r, In (label, r) ILLOGICAL_PAIRS
                 /\ has_label (item w) r = true) ->
      calls (snd ((add_label label ;; add_label label) w)) = calls w
      /\ item (snd ((add_label label ;; add_label label) w)) = item w).
Proof.
  assert (Hquiet : has_label (item w) label = false ->
            (forall r, In (label, r) ILLOGICAL_PAIRS ->
                       has_label (item w) r = false) ->
            (add_label label ;; add_label label) w
            = (Returned tt, skipped label (attached label w))).
  { intros Habsent Hq. unfold bind.
    rewrite (add_label_accepted _ _ Habsent Hq).
    apply add_label_present, has_label_attached_self. }
  assert (Hpresent : has_label (item w) label = true ->
            (add_label label ;; add_label label) w
            = (Returned tt, skipped label (skipped label w))).
  { intros Hp. unfold bind. rewrite (add_label_present _ _ Hp).
    now apply add_label_present. }
  assert (Hfires : has_label (item w) label = false ->
            (exists r, In (label, r) ILLOGICAL_PAIRS
                       /\ has_label (item w) r = true) ->
            (add_label label ;; add_label label) w = (Raised TypeError, w)).
  { intros Habsent [r [Hin Hr]]. unfold bind.
    now rewrite (add_label_illogical _ _ _ Habsent Hin Hr). }
  split; [|split; [|split]].
  - destruct (has_label (item w) label) eqn:Hl.
    + left. now rewrite Hpresent.
    + destruct (pair_fires (item w) label) eqn:Hp.
      * left. rewrite Hfires; trivial. now apply pair_fires_true.
      * right. rewrite Hquiet; trivial. now apply pair_fires_false.
  - intros Habsent Hq. split; [now apply Hquiet | reflexivity].
  - intros Hp. split; [now apply add_label_present|].
    split; [now apply Hpresent | split; reflexivity].
  - intros Habsent Hex. now rewrite (Hfires Habsent Hex).
Qed.

Lemma add_label_idempotent_witness :
  (add_label "wheels" ;; add_label "wheels") (fetched (new_issue "t" "b" []))
  = (Returned tt,
     skipped "wheels" (attached "wheels" (fetched (new_issue "t" "b" []))))
  /\ add_label "bug" (fetched (new_issue "t" "b" ["bug"]))
     = (Returned tt, skipped "bug" (fetched (new_issue "t" "b" ["bug"])))
  /\ calls (snd ((add_label "bug" ;; add_label "bug")
                   (fetched (new_issue "t" "b" ["enhancement"]))))
     = [].
Proof.
  split; [|split].
  - apply (proj1 (proj2 (add_label_idempotent "wheels"
                    (fetched (new_issue "t" "b" []))))).
    + reflexivity.
    + intros r Hin. cbn in Hin.
      repeat destruct Hin as [Hin|Hin]; try discriminate; contradiction.
  - apply (proj1 (proj2 (proj2 (add_label_idempotent "bug"
                    (fetched (new_issue "t" "b" ["bug"])))))).
    reflexivity.
  - apply (proj2 (proj2 (proj2 (add_label_idempotent "bug"
                    (fetched (new_issue "t" "b" ["enhancement"])))))).
    + reflexivity.
    + exists "enhancement". split; [cbn; now left | reflexivity].
Defined.

(** C9, counterexample.  [("scripts", "doc")] is a pair of the table and
    the item carries [scripts] but not [doc]; yet proposing [doc] does not
    attach it, because the item also carries [tests] and [doc] is itself
    the left label of the pair [("doc", "tests")]. *)
Lemma add_label_right_not_attached :
  In ("scripts", "doc") ILLOGICAL_PAIRS
  /\ has_label (new_issue "t" "b" ["scripts"; "tests"]) "scripts" = true
  /\ has_label (new_issue "t" "b" ["scripts"; "tests"]) "doc" = false
  /\ labels (item (snd (add_label "doc"
                          (fetched (new_issue "t" "b" ["scripts"; "tests"])))))
     = ["scripts"; "tests"]
  /\ calls (snd (add_label "doc"
                   (fetched (new_issue "t" "b" ["scripts"; "tests"]))))
     = [].
Proof.
  split; [|repeat split].
  cbn. right. right. now left.
Qed.

(** C9, as amended.  The guard looks at a pair from its left label only:
    for every pair (left, right) of the table, proposing right on an item
    that carries left but not right attaches right, provided no pair with
    right on its left has its own right label on the item (in the table
    this excludes only [doc] on an item carrying [tests]).  So a single
    run on a new item without labels can end with both labels of a pair
    attached: the line [* Type: doc, tests] attaches [doc], then
    [tests]. *)
Theorem guard_is_one_directional :
  (forall (left_label right_label : string) (w : World),
      In (left_label, right_label) ILLOGICAL_PAIRS ->
      has_label (item w) left_label = true ->
      has_label (item w) right_label = false ->
      (forall r, In (right_label, r) ILLOGICAL_PAIRS ->
                 has_label (item w) r = false) ->
      add_label right_label w = (Returned tt, attached right_label w)
      /\ has_label (item (attached right_label w)) left_label = true
      /\ has_label (item (attached right_label w)) right_label = true)
  /\ (let issue := new_issue "notes" ("* Type: doc, tests" ++ nl) [] in
      In ("doc", "tests") ILLOGICAL_PAIRS
      /\ fst (main (LABELS_MAP []) (fetched issue)) = Returned tt
      /\ labels (item (snd (main (LABELS_MAP []) (fetched issue))))
         = ["doc"; "tests"]).
Proof.
  split.
  - intros l r w Hin Hl Hr Hquiet. split; [|split].
    + now apply add_label_accepted.
    + now apply has_label_attached_other.
    + apply has_label_attached_self.
  - cbv zeta. split; [|split].
    + cbn. right. now left.
    + vm_compute. reflexivity.
    + vm_compute. reflexivity.
Qed.

Lemma guard_is_one_directional_witness :
  add_label "enhancement" (fetched (new_issue "t" "b" ["bug"]))
  = (Returned tt, attached "enhancement" (fetched (new_issue "t" "b" ["bug"]))).
Proof.
  apply (proj1 guard_is_one_directional "bug" "enhancement"
           (fetched (new_issue "t" "b" ["bug"]))).
  - cbn. now left.
  - reflexivity.
  - reflexivity.
  - intros r Hin. cbn in Hin.
    repeat destruct Hin as [Hin|Hin]; try discriminate; contradiction.
Defined.

(** X1.  Whenever the right label of a pair is on the item, proposing the
    left label attaches nothing: the attempt is skipped when the left label is
    present too, and raises otherwise; either way no call is made and the
    item is left as it was. *)
Theorem illogical_left_never_attached (label r : string) (w : World) :
  In (label, r) ILLOGICAL_PAIRS ->
  has_label (item w) r = true ->
  calls (snd (add_label label w)) = calls w
  /\ item (snd (add_label label w)) = item w.
Proof.
  intros Hin Hr. rewrite add_label_cases.
  destruct (has_label (item w) label) eqn:Hl; [now split|].
  destruct (pair_fires (item w) label) eqn:Hp; [now split|].
  rewrite (pair_fires_false _ _ Hp r Hin) in Hr. discriminate.
Qed.

Lemma illogical_left_never_attached_witness :
  calls (snd (add_label "scripts" (fetched (new_issue "t" "b" ["doc"])))) = []
  /\ item (snd (add_label "scripts" (fetched (new_issue "t" "b" ["doc"]))))
     = new_issue "t" "b" ["doc"].
Proof.
  apply (illogical_left_never_attached "scripts" "doc"
           (fetched (new_issue "t" "b" ["doc"]))).
  - cbn. right. right. now left.
  - reflexivity.
Defined.

(* ================================================================== *)
(** * The event dispatcher (section 4.5) *)
(* ================================================================== *)

Lemma main_on_comment (R : catalog) (w : World) :
  comments (item w) <> 0%Z ->
  main R w
  = (Raised TypeError,
     mkWorld (item w) (calls w)
             (stdout w ++ [msg_running
                             (if is_issue (item w) then "issue" else "PR")])).
Proof.
  intros Hc. unfold main, bind at 1, get_issue, is_new.
  apply Z.eqb_neq in Hc. rewrite Hc. reflexivity.
Qed.

(** C8.  [main] looks at the comment count and the kind of the item and
    at nothing else to choose what to run.  With no comment the item is
    new: title inference, then template extraction, then, for an issue
    only, the missing-header detector.  With any other comment count it
    is a comment event: the run makes no call and leaves the item as it
    is (no label, no comment, no change of state); it ends in the
    [TypeError] raised by the log line that precedes [on_new_comment]. *)
Theorem main_dispatch (R : catalog) (w : World) :
  let stype := if is_issue (item w) then "issue" else "PR" in
  (comments (item w) = 0%Z ->
   main R w
   = (label_phase R stype (item w) ;;
      when (is_issue (item w)) on_new_issue) w)
  /\ (comments (item w) <> 0%Z ->
      main R w
      = (Raised TypeError,
         mkWorld (item w) (calls w) (stdout w ++ [msg_running stype]))).
Proof.
  cbv zeta. split; intros Hc.
  - unfold main, label_phase, bind at 1, get_issue, is_new.
    rewrite Hc. cbn [Z.eqb]. unfold on_new_pr, bind.
    destruct (log _ w) as [[[]|e] w1]; [|reflexivity].
    destruct (log _ w1) as [[[]|e] w2]; [|reflexivity].
    destruct (add_labels_from_text R _ w2) as [[[]|e] w3]; [|reflexivity].
    destruct (add_labels_from_new_body R _ w3) as [[[]|e] w4]; [|reflexivity].
    destruct (when (is_issue (item w)) on_new_issue w4) as [[[]|e] w5];
      [|reflexivity].
    now destruct (is_pr (item w)).
  - now apply main_on_comment.
Qed.

Lemma main_dispatch_witness :
  main (LABELS_MAP []) (fetched (new_pull_request "fix" bug_fix_yes []))
  = label_phase (LABELS_MAP []) "PR" (new_pull_request "fix" bug_fix_yes [])
      (fetched (new_pull_request "fix" bug_fix_yes []))
  /\ main (LABELS_MAP [])
          (fetched (mkIssue "github.Issue" "missing Python.h" "b" 2 [] "open"))
     = (Raised TypeError,
        mkWorld (mkIssue "github.Issue" "missing Python.h" "b" 2 [] "open")
                [] [msg_running "issue"]).
Proof.
  split.
  - rewrite (proj1 (main_dispatch (LABELS_MAP [])
                      (fetched (new_pull_request "fix" bug_fix_yes []))))
      by reflexivity.
    vm_compute. reflexivity.
  - apply (proj2 (main_dispatch (LABELS_MAP [])
                    (fetched (mkIssue "github.Issue" "missing Python.h" "b"
                                2 [] "open")))).
    discriminate.
Defined.

(** X2.  A comment event never ends normally: whatever the item, with a
    comment count other than zero [main] raises [TypeError] at the log
    line of the comment branch, after the first log line and before
    [on_new_comment], having made no call. *)
Theorem main_comment_event_raises (R : catalog) (w : World) :
  comments (item w) <> 0%Z ->
  fst (main R w) = Raised TypeError
  /\ calls (snd (main R w)) = calls w
  /\ item (snd (main R w)) = item w.
Proof.
  intros Hc. rewrite (main_on_comment R w Hc). now repeat split.
Qed.

Lemma main_comment_event_raises_witness :
  fst (main (LABELS_MAP [])
            (fetched (mkIssue "github.PullRequest" "t" "b" 1 [] "open")))
  = Raised TypeError.
Proof.
  apply (main_comment_event_raises (LABELS_MAP [])
           (fetched (mkIssue "github.PullRequest" "t" "b" 1 [] "open"))).
  discriminate.
Defined.

(* ================================================================== *)
(** * The line feed that ends a template field *)
(* ================================================================== *)

Lemma os_line_unterminated (R : catalog) (lines last : string) (w : World) :
  whole_lines lines = true -> no_newline last = true ->
  os_line R (lines ++ last) w = os_line R lines w.
Proof.
  intros Hw Hl. unfold os_line.
  now rewrite ReFacts.search_app_unterminated.
Qed.

Lemma bug_fix_line_unterminated (lines last : string) (w : World) :
  whole_lines lines = true -> no_newline last = true ->
  bug_fix_line (lines ++ last) w = bug_fix_line lines w.
Proof.
  intros Hw Hl. unfold bug_fix_line.
  now rewrite ReFacts.search_app_unterminated.
Qed.

Lemma type_line_unterminated (lines last : string) (w : World) :
  whole_lines lines = true -> no_newline last = true ->
  type_line (lines ++ last) w = type_line lines w.
Proof.
  intros Hw Hl. unfold type_line.
  now rewrite ReFacts.search_app_unterminated.
Qed.

(** C10.  Each of the three searches needs the line feed: a match always
    ends with one.  So a last line of the body that has no line feed is
    invisible: for a body made of whole lines followed by such a last
    line, every search gives what it gives on the whole lines alone, a
    field that occurs on the last line only is not found, and template
    extraction does exactly what it does without the last line; when the
    unterminated line is the whole body, nothing is found and no label is
    proposed. *)
Theorem template_field_needs_newline
  (R : catalog) (lines last : string) (w : World) :
  whole_lines lines = true ->
  no_newline last = true ->
  (forall marker m,
      In marker field_markers ->
      Re.search marker (lines ++ last) = Some m ->
      exists line, m = marker ++ line ++ nl /\ no_newline line = true)
  /\ (forall marker,
         In marker field_markers ->
         Re.search marker (lines ++ last) = Re.search marker lines)
  /\ (forall marker,
         In marker field_markers ->
         Re.search marker lines = None ->
         Re.search marker (lines ++ last) = None)
  /\ add_labels_from_new_body R (lines ++ last) w
     = add_labels_from_new_body R lines w
  /\ add_labels_from_new_body R last w
     = (Returned tt,
        mkWorld (item w) (calls w)
                (stdout w ++ [msg_start_searching;
                              msg_search_os; msg_not_found;
                              msg_search_bug_fix; msg_not_found;
                              msg_search_type; msg_not_found])).
Proof.
  intros Hw Hl.
  assert (Hsearch : forall marker, In marker field_markers ->
            Re.search marker (lines ++ last) = Re.search marker lines).
  { intros marker Hin. apply ReFacts.search_app_unterminated; trivial.
    cbn in Hin. repeat destruct Hin as [<-|Hin]; try reflexivity.
    contradiction. }
  split; [|split; [|split; [|split]]].
  - intros marker m _ Hs.
    destruct (ReFacts.search_some _ _ _ Hs) as [_ [line [_ [_ [Hm Hline]]]]].
    now exists line.
  - exact Hsearch.
  - intros marker Hin Hnone. now rewrite Hsearch.
  - unfold add_labels_from_new_body, bind.
    destruct (log msg_start_searching w) as [[[]|e] w1]; [|reflexivity].
    rewrite os_line_unterminated by assumption.
    destruct (os_line R lines w1) as [[[]|e] w2]; [|reflexivity].
    rewrite bug_fix_line_unterminated by assumption.
    destruct (bug_fix_line lines w2) as [[[]|e] w3]; [|reflexivity].
    now apply type_line_unterminated.
  - unfold add_labels_from_new_body, os_line, bug_fix_line, type_line.
    rewrite !ReFacts.search_no_newline by assumption.
    unfold bind, log, get_issue. cbn. now rewrite <- !app_assoc.
Qed.

Lemma template_field_needs_newline_witness :
  Re.search "* Type:" (unterminated_body ++ unterminated_field) = None
  /\ add_labels_from_new_body (LABELS_MAP []) unterminated_field
       (fetched (new_issue "t" unterminated_field []))
     = (Returned tt,
        mkWorld (new_issue "t" unterminated_field []) []
                [msg_start_searching;
                 msg_search_os; msg_not_found;
                 msg_search_bug_fix; msg_not_found;
                 msg_search_type; msg_not_found]).
Proof.
  destruct (template_field_needs_newline (LABELS_MAP [])
              unterminated_body unterminated_field
              (fetched (new_issue "t" unterminated_field [])))
    as [_ [_ [Hnone [_ Hrun]]]].
  - reflexivity.
  - reflexivity.
  - split.
    + apply Hnone; [cbn; auto | reflexivity].
    + exact Hrun.
Defined.

(* ================================================================== *)
(** * The bot only attaches labels *)
(* ================================================================== *)

Lemma has_label_false_iff (issue : Issue) (label : string) :
  has_label issue label = false <-> ~ In label (labels issue).
Proof.
  unfold has_label. rewrite <- mem_iff_In.
  destruct (mem label (labels issue)); split; congruence.
Qed.

Lemma adds_within_refl (P : string -> Prop) (w : World) : adds_within P w w.
Proof.
  exists []. cbn. rewrite !app_nil_r.
  repeat split; try apply same_text_refl; try constructor; contradiction.
Qed.

Lemma adds_within_trans (P : string -> Prop) (w1 w2 w3 : World) :
  adds_within P w1 w2 -> adds_within P w2 w3 -> adds_within P w1 w3.
Proof.
  intros [a1 [Hc1 [Hl1 [Hs1 [Ht1 [Hn1 Hp1]]]]]]
         [a2 [Hc2 [Hl2 [Hs2 [Ht2 [Hn2 Hp2]]]]]].
  assert (Hfresh : forall l, In l a2 -> ~ In l (labels (item w1) ++ a1)%list).
  { intros l Hl. destruct (Hp2 l Hl) as [_ Ha].
    apply has_label_false_iff in Ha. now rewrite Hl1 in Ha. }
  exists (a1 ++ a2)%list. split; [|split; [|split; [|split; [|split]]]].
  - now rewrite Hc2, Hc1, map_app, app_assoc.
  - now rewrite Hl2, Hl1, app_assoc.
  - congruence.
  - eapply same_text_trans; eassumption.
  - apply NoDup_app; trivial. intros l H1 H2.
    apply (Hfresh l H2). apply in_or_app. now right.
  - intros l Hl. apply in_app_or in Hl. destruct Hl as [Hl|Hl].
    + now apply Hp1.
    + split; [now apply Hp2|]. apply has_label_false_iff. intros Hin.
      apply (Hfresh l Hl). apply in_or_app. now left.
Qed.

Lemma adds_within_weaken (P Q : string -> Prop) (w w' : World) :
  (forall l, P l -> Q l) -> adds_within P w w' -> adds_within Q w w'.
Proof.
  intros HPQ [a [Hc [Hl [Hs [Ht [Hn Hp]]]]]]. exists a.
  repeat split; trivial; try apply Ht.
  - apply HPQ. now apply Hp.
  - now apply Hp.
Qed.

Lemma only_adds_ret {A} (P : string -> Prop) (a : A) : only_adds P (ret a).
Proof. intros w. apply adds_within_refl. Qed.

Lemma only_adds_raise {A} (P : string -> Prop) (e : Exn) :
  only_adds P (@raise A e).
Proof. intros w. apply adds_within_refl. Qed.

Lemma only_adds_get_issue (P : string -> Prop) : only_adds P get_issue.
Proof. intros w. apply adds_within_refl. Qed.

Lemma only_adds_log (P : string -> Prop) (msg : Message) :
  only_adds P (log msg).
Proof.
  intros w. exists []. cbn. rewrite !app_nil_r.
  repeat split; try constructor; contradiction.
Qed.

Lemma only_adds_bind {A B} (P : string -> Prop) (m : M A) (k : A -> M B) :
  only_adds P m -> (forall a, only_adds P (k a)) -> only_adds P (bind m k).
Proof.
  intros Hm Hk w. unfold bind. specialize (Hm w).
  destruct (m w) as [[a|e] w']; cbn in *; [|assumption].
  eapply adds_within_trans; [exact Hm | apply Hk].
Qed.

Lemma only_adds_when (P : string -> Prop) (cond : bool) (body : M unit) :
  only_adds P body -> only_adds P (when cond body).
Proof. destruct cond; [trivial | intros _; apply only_adds_ret]. Qed.

Lemma only_adds_for_each {A} (P : string -> Prop) (xs : list A)
  (body : A -> M unit) :
  (forall x, In x xs -> only_adds P (body x)) ->
  only_adds P (for_each xs body).
Proof.
  induction xs as [|x xs IH]; intros H; cbn [for_each].
  - apply only_adds_ret.
  - apply only_adds_bind.
    + apply H. now left.
    + intros _. apply IH. intros y Hy. apply H. now right.
Qed.

Lemma only_adds_add_label (P : string -> Prop) (label : string) :
  P label -> only_adds P (add_label label).
Proof.
  intros HP w. rewrite add_label_cases.
  destruct (has_label (item w) label) eqn:Hl.
  - exists []. cbn. rewrite !app_nil_r.
    repeat split; try constructor; contradiction.
  - destruct (pair_fires (item w) label); [apply adds_within_refl|].
    exists [label]. cbn.
    repeat split; try (constructor; [intros []|constructor]);
      destruct H as [<-|[]]; assumption.
Qed.

Lemma only_adds_add_labels_from_text (R : catalog) (text : string) :
  only_adds (fun l => exists k, In (l, k) (_guess_labels_from_text R text))
            (add_labels_from_text R text).
Proof.
  unfold add_labels_from_text. apply only_adds_for_each.
  intros [l k] Hin. apply only_adds_add_label. now exists k.
Qed.

Lemma guess_labels_keys (R : catalog) (text l k : string) :
  In (l, k) (_guess_labels_from_text R text) -> In l (map fst R).
Proof.
  intros H. apply guess_labels_In in H. destruct H as [ks [HR _]].
  apply in_map_iff. now exists (l, ks).
Qed.

Lemma only_adds_os_line (R : catalog) (text : string) :
  only_adds (fun l => exists group0 k,
                 Re.search "* OS:" text = Some group0
                 /\ In (l, k) (_guess_labels_from_text R group0))
            (os_line R text).
Proof.
  unfold os_line. apply only_adds_bind; [apply only_adds_log | intros _].
  destruct (Re.search "* OS:" text) as [g|]; [|apply only_adds_log].
  apply only_adds_bind; [apply only_adds_log | intros _].
  intros w. eapply adds_within_weaken;
    [|apply only_adds_add_labels_from_text].
  intros l [k Hk]. now exists g, k.
Qed.

Lemma only_adds_bug_fix_line (text : string) :
  only_adds (fun l => In l template_labels) (bug_fix_line text).
Proof.
  unfold bug_fix_line.
  apply only_adds_bind; [apply only_adds_log | intros _].
  apply only_adds_bind; [apply only_adds_get_issue | intros issue].
  destruct (Re.search "* Bug fix:" text) as [g|]; [|apply only_adds_log].
  destruct (is_pr issue && negb (has_label issue "bug")
            && negb (has_label issue "enhancement")); [|apply only_adds_log].
  apply only_adds_bind; [apply only_adds_log | intros _].
  destruct (is_in "yes" (lower g)); apply only_adds_add_label; cbn; auto.
Qed.

Lemma only_adds_type_line (text : string) :
  only_adds (fun l => In l template_labels) (type_line text).
Proof.
  unfold type_line.
  apply only_adds_bind; [apply only_adds_log | intros _].
  destruct (Re.search "* Type:" text) as [g|]; [|apply only_adds_log].
  apply only_adds_bind; [apply only_adds_log | intros _].
  repeat (apply only_adds_bind; [|intros _]);
    apply only_adds_when, only_adds_add_label; cbn; auto 10.
Qed.

Lemma only_adds_weaken {A} (P Q : string -> Prop) (m : M A) :
  (forall l, P l -> Q l) -> only_adds P m -> only_adds Q m.
Proof. intros HPQ Hm w. eapply adds_within_weaken; [exact HPQ | apply Hm]. Qed.

Lemma only_adds_add_labels_from_new_body (R : catalog) (text : string) :
  only_adds (fun l => In l template_labels
                      \/ exists group0 k,
                           Re.search "* OS:" text = Some group0
                           /\ In (l, k) (_guess_labels_from_text R group0))
            (add_labels_from_new_body R text).
Proof.
  unfold add_labels_from_new_body.
  apply only_adds_bind; [apply only_adds_log | intros _].
  apply only_adds_bind;
    [eapply only_adds_weaken; [|apply only_adds_os_line]; auto | intros _].
  apply only_adds_bind; [|intros _];
    (eapply only_adds_weaken;
     [|apply only_adds_bug_fix_line || apply only_adds_type_line]; auto).
Qed.

Lemma only_adds_label_phase (R : catalog) (stype : string) (issue : Issue) :
  only_adds (proposable R) (label_phase R stype issue).
Proof.
  unfold label_phase.
  apply only_adds_bind; [apply only_adds_log | intros _].
  apply only_adds_bind; [apply only_adds_log | intros _].
  apply only_adds_bind; [|intros _].
  - eapply only_adds_weaken; [|apply only_adds_add_labels_from_text].
    intros l [k Hk]. left. eapply guess_labels_keys; eassumption.
  - eapply only_adds_weaken; [|apply only_adds_add_labels_from_new_body].
    intros l [Hl|[g [k [_ Hk]]]]; [now right | left].
    eapply guess_labels_keys; eassumption.
Qed.

Lemma main_on_new (R : catalog) (w : World) :
  comments (item w) = 0%Z ->
  main R w
  = (label_phase R (if is_issue (item w) then "issue" else "PR") (item w) ;;
     when (is_issue (item w)) on_new_issue) w.
Proof.
  intros Hc.
  unfold main, label_phase, bind at 1, get_issue, is_new.
  rewrite Hc. cbn [Z.eqb]. unfold on_new_pr, bind.
  destruct (log _ w) as [[[]|e] w1]; [|reflexivity].
  destruct (log _ w1) as [[[]|e] w2]; [|reflexivity].
  destruct (add_labels_from_text R _ w2) as [[[]|e] w3]; [|reflexivity].
  destruct (add_labels_from_new_body R _ w3) as [[[]|e] w4]; [|reflexivity].
  destruct (when (is_issue (item w)) on_new_issue w4) as [[[]|e] w5];
    [|reflexivity].
  now destruct (is_pr (item w)).
Qed.

(** X3.  Whatever the catalog, the text and the item, and whether it
    returns or raises, [add_labels_from_text] does nothing but attach
    labels: its calls are [add_to_labels] calls for distinct labels that
    the item did not carry, the label list grows by exactly these labels
    at its end, each of them has a keyword of the catalog that occurs,
    lower-cased, in the lower-cased text, and the state, kind, texts and
    comment count of the item stay as they were. *)
Theorem add_labels_from_text_only_adds (R : catalog) (text : string) (w : World) :
  adds_within
    (fun l => exists keywords keyword,
                In (l, keywords) R /\ In keyword keywords
                /\ Substring (lower keyword) (lower text))
    w (snd (add_labels_from_text R text w)).
Proof.
  eapply adds_within_weaken; [|apply only_adds_add_labels_from_text].
  intros l [k Hk]. apply guess_labels_In in Hk.
  destruct Hk as [ks [HR [Hin Hs]]]. exists ks, k.
  repeat split; trivial. now apply is_in_iff_Substring.
Qed.

(** X4.  Template extraction does nothing but attach labels either, and
    every label it attaches is one of the nine labels of the [Bug fix]
    and [Type] rules or is yielded by the inference engine on the matched
    [OS] line; without a matched [OS] line only the nine are possible. *)
Theorem add_labels_from_new_body_only_adds
  (R : catalog) (text : string) (w : World) :
  adds_within
    (fun l => In l template_labels
              \/ exists group0 keyword,
                   Re.search "* OS:" text = Some group0
                   /\ In (l, keyword) (_guess_labels_from_text R group0))
    w (snd (add_labels_from_new_body R text w)).
Proof. apply only_adds_add_labels_from_new_body. Qed.

(** X5.  The shape of every run of [main], whatever the item and however
    the run ends.  Its calls are [add_to_labels] calls for distinct labels
    that the item did not carry, each a key of the catalog or one of the
    nine template labels, and the label list grows by exactly these; they
    are followed by nothing or, only on an issue without comments that
    the detector matches and only when the run returns, by the canned
    reply and the change of state to closed.  Labels are never removed, a
    pull request is never commented on or closed, and the state is never
    set to anything but closed. *)
Theorem main_trace_shape (R : catalog) (w : World) :
  exists (added : list string) (tail : list Call),
    calls (snd (main R w))
    = (calls w ++ map add_to_labels_call added ++ tail)%list
    /\ labels (item (snd (main R w))) = (labels (item w) ++ added)%list
    /\ NoDup added
    /\ (forall l, In l added ->
                  proposable R l /\ has_label (item w) l = false)
    /\ ((tail = [] /\ state (item (snd (main R w))) = state (item w))
        \/ (tail = [create_comment_call REPLY_MISSING_PYTHON_HEADERS;
                    edit_call "closed"]
            /\ fst (main R w) = Returned tt
            /\ is_issue (item w) = true
            /\ comments (item w) = 0%Z
            /\ missing_python_h (item w) = true
            /\ state (item (snd (main R w))) = "closed")).
Proof.
  destruct (Z.eq_dec (comments (item w)) 0) as [Hc|Hc].
  - rewrite (main_on_new R w Hc). unfold bind.
    pose proof (only_adds_label_phase R
                  (if is_issue (item w) then "issue" else "PR") (item w) w)
      as Hphase.
    destruct (label_phase R _ (item w) w) as [[[]|e] w1]; cbn [snd] in Hphase;
      destruct Hphase as [added [Hcalls [Hlabels [Hstate [Htext [Hnd Hp]]]]]].
    + destruct (is_issue (item w)) eqn:Hi; cbn [when].
      * rewrite on_new_issue_run.
        rewrite (same_text_missing_python_h _ _ Htext).
        destruct (missing_python_h (item w)) eqn:Hm; cbn [fst snd].
        -- exists added, [create_comment_call REPLY_MISSING_PYTHON_HEADERS;
                          edit_call "closed"].
           unfold replied. cbn. rewrite Hcalls, Hlabels, <- app_assoc.
           repeat split; trivial; try apply Hp; trivial. right.
           now repeat split.
        -- exists added, []. unfold searched. cbn.
           rewrite Hcalls, Hlabels, app_nil_r.
           repeat split; trivial; try apply Hp; trivial. now left.
      * exists added, []. cbn. rewrite Hcalls, Hlabels, app_nil_r.
        repeat split; trivial; try apply Hp; trivial. now left.
    + exists added, []. cbn. rewrite Hcalls, Hlabels, app_nil_r.
      repeat split; trivial; try apply Hp; trivial. now left.
  - rewrite (main_on_comment R w Hc). exists [], []. cbn.
    rewrite !app_nil_r.
    split; [reflexivity|]. split; [reflexivity|]. split; [constructor|].
    split; [intros l []|]. left. now split.
Qed.

(* ================================================================== *)
(** * Inference aborts when a right label comes before its left label *)
(* ================================================================== *)

Lemma for_each_app {A} (xs ys : list A) (body : A -> M unit) (w : World) :
  for_each (xs ++ ys) body w = (for_each xs body ;; for_each ys body) w.
Proof.
  revert w. induction xs as [|x xs IH]; intros w; cbn [app for_each].
  - reflexivity.
  - unfold bind in *. destruct (body x w) as [[[]|e] w']; [|reflexivity].
    apply IH.
Qed.

Lemma adds_within_has_label (P : string -> Prop) (w w' : World) (x : string) :
  adds_within P w w' ->
  has_label (item w) x = true -> has_label (item w') x = true.
Proof.
  intros [added [_ [Hl _]]]. unfold has_label. rewrite !mem_iff_In, Hl.
  intros H. apply in_or_app. now left.
Qed.

Lemma adds_within_still_absent (P : string -> Prop) (w w' : World) (x : string) :
  adds_within P w w' -> ~ P x ->
  has_label (item w) x = false -> has_label (item w') x = false.
Proof.
  intros [added [_ [Hl [_ [_ [_ Hp]]]]]] HnP Hx.
  apply has_label_false_iff. rewrite Hl. intros Hin.
  apply in_app_or in Hin. destruct Hin as [Hin|Hin].
  - now apply has_label_false_iff in Hx.
  - now apply HnP, Hp.
Qed.

Lemma add_label_returned_present (label : string) (w w' : World) :
  add_label label w = (Returned tt, w') -> has_label (item w') label = true.
Proof.
  rewrite add_label_cases. destruct (has_label (item w) label) eqn:Hl.
  - intros H. injection H as <-. exact Hl.
  - destruct (pair_fires (item w) label); [discriminate|].
    intros H. injection H as <-. apply has_label_attached_self.
Qed.

(** Once the loop of [add_labels_from_text] has gone through a pair
    without raising, the label of the pair is on the item. *)
Lemma for_each_returned_present (pairs : list (string * string))
  (x k : string) (w w' : World) :
  for_each pairs (fun '(label, keyword) => add_label label) w
  = (Returned tt, w') ->
  In (x, k) pairs -> has_label (item w') x = true.
Proof.
  revert w. induction pairs as [|[y ky] pairs IH]; intros w Hrun Hin;
    [contradiction|].
  cbn [for_each] in Hrun. unfold bind in Hrun.
  destruct (add_label y w) as [[[]|e] w1] eqn:Hy; [|discriminate].
  destruct Hin as [Hin|Hin].
  - injection Hin as -> ->.
    pose proof (only_adds_for_each (fun _ => True) pairs
                  (fun '(label, keyword) => add_label label)) as Hrest.
    assert (Hw : adds_within (fun _ => True) w1 w').
    { specialize (Hrest (fun p _ => match p with
                                    | (l, _) => only_adds_add_label _ l I
                                    end) w1).
      now rewrite Hrun in Hrest. }
    eapply adds_within_has_label; [exact Hw|].
    eapply add_label_returned_present; eassumption.
  - eapply IH; eassumption.
Qed.

(** The loop raises at the first pair whose label is the left label of
    an illogical pair, when the right label is on the item by then. *)
Lemma add_labels_from_text_raises
  (R : catalog) (text l r k : string) (pre post : list (string * string))
  (w : World) :
  In (l, r) ILLOGICAL_PAIRS ->
  _guess_labels_from_text R text = (pre ++ (l, k) :: post)%list ->
  (forall k', ~ In (l, k') pre) ->
  (has_label (item w) r = true \/ exists k', In (r, k') pre) ->
  has_label (item w) l = false ->
  fst (add_labels_from_text R text w) = Raised TypeError.
Proof.
  intros Hpair Hguess Hfirst Hr Hl.
  unfold add_labels_from_text. rewrite Hguess, for_each_app. unfold bind.
  set (body := fun '(label, keyword) => add_label label).
  assert (Hpre : adds_within (fun x => exists k', In (x, k') pre) w
                             (snd (for_each pre body w))).
  { apply only_adds_for_each. intros [x kx] Hin.
    apply only_adds_add_label. now exists kx. }
  destruct (for_each pre body w) as [[[]|[]] w1] eqn:Hrun; [|reflexivity].
  cbn [snd] in Hpre. cbn [for_each]. unfold bind. cbn [body].
  rewrite (add_label_illogical l r w1); trivial.
  - eapply adds_within_still_absent; [exact Hpre| |exact Hl].
    intros [k' Hk']. exact (Hfirst k' Hk').
  - destruct Hr as [Hr|[k' Hk']].
    + eapply adds_within_has_label; eassumption.
    + eapply for_each_returned_present; eassumption.
Qed.

Lemma guess_labels_app (R1 R2 : catalog) (text : string) :
  _guess_labels_from_text (R1 ++ R2)%list text
  = (_guess_labels_from_text R1 text ++ _guess_labels_from_text R2 text)%list.
Proof. unfold _guess_labels_from_text. apply flat_map_app. Qed.

Lemma guess_labels_first_keyword (label text k : string) (kws : list string)
  (R : catalog) :
  In k kws -> is_in (lower k) (lower text) = true ->
  exists k0 rest,
    _guess_labels_from_text ((label, kws) :: R) text = (label, k0) :: rest.
Proof.
  intros Hin Hk. unfold _guess_labels_from_text. cbn [flat_map].
  induction kws as [|k1 kws IH]; [contradiction|]. cbn [flat_map].
  destruct (is_in (lower k1) (lower text)) eqn:E.
  - cbn. eauto.
  - destruct Hin as [->|Hin]; [congruence|].
    destruct (IH Hin) as [k0 [rest H]]. cbn. eauto.
Qed.

(** X6.  In [LABELS_MAP] the label [enhancement] comes before the label
    [bug], and [("bug", "enhancement")] is an illogical pair.  So, for
    every scripts directory and every item that does not carry [bug],
    inference over a text that contains a keyword of [bug] raises
    [TypeError] as soon as the item carries [enhancement] or the text
    contains [enhancement] too (both without regard to case): by the time
    [bug] is proposed, [enhancement] is on the item.  On a new item with
    such a title the whole run of [main] raises. *)
Theorem enhancement_before_bug_aborts
  (listing : list string) (text keyword : string) (keywords : list string)
  (w : World) :
  has_label (item w) "enhancement" = true
  \/ Substring "enhancement" (lower text) ->
  In ("bug", keywords) (LABELS_MAP listing) ->
  In keyword keywords ->
  Substring (lower keyword) (lower text) ->
  has_label (item w) "bug" = false ->
  fst (add_labels_from_text (LABELS_MAP listing) text w) = Raised TypeError
  /\ (comments (item w) = 0%Z -> title (item w) = text ->
      fst (main (LABELS_MAP listing) w) = Raised TypeError).
Proof.
  intros Henh Hbug Hkw Hsub Habsent.
  assert (Hkws : keywords
                 = ["fail"; "can't execute"; "can't install"; "cannot execute";
                    "cannot install"; "install error"; "crash"; "critical"]).
  { unfold LABELS_MAP in Hbug. simpl in Hbug.
    repeat destruct Hbug as [Hbug|Hbug]; try discriminate; try contradiction.
    now injection Hbug as <-. }
  clear Hbug.
  pose (R1 := firstn 18 (LABELS_MAP listing)).
  pose (R2 := skipn 19 (LABELS_MAP listing)).
  assert (Hsplit : LABELS_MAP listing = (R1 ++ ("bug", keywords) :: R2)%list)
    by (rewrite Hkws; reflexivity).
  assert (HR1 : In ("enhancement", ["enhancement"]) R1)
    by (cbn; do 12 right; now left).
  assert (Hkeys : ~ In "bug" (map fst R1))
    by (cbn; intuition discriminate).
  clearbody R1 R2.
  assert (Hraise : forall w', item w' = item w ->
            fst (add_labels_from_text (LABELS_MAP listing) text w')
            = Raised TypeError).
  { intros w' Hw'.
    destruct (guess_labels_first_keyword "bug" text keyword keywords R2 Hkw
                (proj2 (is_in_iff_Substring _ _) Hsub)) as [k0 [rest Hfirst]].
    apply (add_labels_from_text_raises _ text "bug" "enhancement" k0
             (_guess_labels_from_text R1 text) rest).
    - cbn. now left.
    - now rewrite Hsplit, guess_labels_app, Hfirst.
    - intros k' Hk'. apply Hkeys. eapply guess_labels_keys; eassumption.
    - rewrite Hw'. destruct Henh as [Hhas|Htext]; [now left | right].
      exists "enhancement". apply guess_labels_In.
      exists ["enhancement"]. repeat split; [assumption | now left |].
      now apply is_in_iff_Substring.
    - now rewrite Hw'. }
  split; [now apply Hraise|].
  intros Hc Ht. rewrite (main_on_new _ w Hc). unfold label_phase, bind, log.
  rewrite Ht.
  match goal with
  | |- context [add_labels_from_text ?R text ?w2] =>
      specialize (Hraise w2 eq_refl);
      destruct (add_labels_from_text R text w2) as [[[]|e] w3]
  end; [discriminate | exact Hraise].
Qed.

Lemma enhancement_before_bug_aborts_witness :
  fst (main (LABELS_MAP [])
            (fetched (new_issue "Enhancement: avoid the crash on exit" "" [])))
  = Raised TypeError.
Proof.
  apply (enhancement_before_bug_aborts [] "Enhancement: avoid the crash on exit"
           "crash"
           ["fail"; "can't execute"; "can't install"; "cannot execute";
            "cannot install"; "install error"; "crash"; "critical"]
           (fetched (new_issue "Enhancement: avoid the crash on exit" "" []))).
  - right. apply is_in_iff_Substring. vm_compute. reflexivity.
  - cbn. do 18 right. now left.
  - cbn. do 6 right. now left.
  - apply is_in_iff_Substring. vm_compute. reflexivity.
  - reflexivity.
  - reflexivity.
  - reflexivity.
Defined.

(* ================================================================== *)
(** * The scripts directory in the catalog *)
(* ================================================================== *)

(** X7.  What the scripts directory adds to the catalog: for every
    listing of the directory, inference yields the pair of the label
    [scripts] with a keyword exactly when the keyword is one of the four
    literal ones or a name of the listing that ends in [.py], and the
    keyword, lower-cased, occurs in the lower-cased text.  Names with
    another ending are never keywords. *)
Theorem scripts_keywords_from_listing (listing : list string)
  (name text : string) :
  In ("scripts", name) (_guess_labels_from_text (LABELS_MAP listing) text)
  <->
  (In name ["example script"; "examples script"; "example dir"; "scripts/"]
   \/ (In name listing /\ endswith name ".py" = true))
  /\ Substring (lower name) (lower text).
Proof.
  rewrite guess_labels_In, <- is_in_iff_Substring. split.
  - intros [ks [HR [Hk Hs]]]. split; [|exact Hs].
    unfold LABELS_MAP in HR. simpl in HR.
    repeat destruct HR as [HR|HR]; try discriminate; try contradiction.
    injection HR as <-. simpl in Hk.
    destruct Hk as [Hk|[Hk|[Hk|[Hk|Hk]]]]; try (left; cbn; tauto).
    right. now apply filter_In in Hk.
  - intros [Hk Hs].
    exists (["example script"; "examples script"; "example dir"; "scripts/"]
            ++ filter (fun x => endswith x ".py") listing)%list.
    split; [cbn; do 17 right; now left|]. split; [|exact Hs].
    apply in_or_app. destruct Hk as [Hk|Hk]; [now left | right].
    now apply filter_In.
Qed.

(* ================================================================== *)
(** * Which line a template search returns *)
(* ================================================================== *)

(** X8.  Which text a template search returns.  The search for a field
    marker finds something exactly when the text holds the marker with a
    line feed somewhere after it.  What it returns is then the leftmost
    such occurrence of the marker together with everything up to and
    including the first line feed after it: a later line with the same
    marker is ignored, and so is anything after the line feed. *)
Theorem search_first_marked_line (lit s : string) :
  (forall m,
      Re.search lit s = Some m ->
      exists before line after,
        s = before ++ lit ++ line ++ nl ++ after
        /\ m = lit ++ line ++ nl
        /\ no_newline line = true
        /\ forall b' l' a',
             s = b' ++ lit ++ l' ++ nl ++ a' ->
             (String.length before <= String.length b')%nat)
  /\ (Re.search lit s = None <->
      forall before line after, s <> before ++ lit ++ line ++ nl ++ after).
Proof.
  split; [intros m; apply search_some_leftmost|]. split.
  - intros Hnone before line after Hs. rewrite Hs in Hnone.
    destruct (ReFacts.search_complete lit before line after) as [m Hm].
    congruence.
  - intros H. destruct (Re.search lit s) as [m|] eqn:E; [|reflexivity].
    destruct (search_some_leftmost _ _ _ E) as [b [l [a [Hs _]]]].
    elim (H b l a Hs).
Qed.

Lemma search_first_marked_line_witness :
  Re.search "* OS:" ("Hi" ++ nl ++ "* OS: Linux" ++ nl ++ "* OS: Windows" ++ nl)
  <> None.
Proof.
  intros Hnone.
  apply (proj1 (proj2 (search_first_marked_line "* OS:"
           ("Hi" ++ nl ++ "* OS: Linux" ++ nl ++ "* OS: Windows" ++ nl)))
           Hnone ("Hi" ++ nl) " Linux" ("* OS: Windows" ++ nl)).
  reflexivity.
Defined.

(* ================================================================== *)
(** * The layout of a log line *)
(* ================================================================== *)

Lemma is_in_nl_iff (msg : string) : is_in nl msg = negb (no_newline msg).
Proof.
  induction msg as [|c msg IH]; [reflexivity|].
  cbn [is_in startswith nl no_newline]. rewrite IH.
  destruct (Ascii.eqb_spec LF c) as [<-|ne].
  - now rewrite Ascii.eqb_refl.
  - destruct (Ascii.eqb_spec c LF) as [->|_]; [now elim ne|].
    cbn. now destruct msg.
Qed.

Lemma no_newline_app (a b : string) :
  no_newline (a ++ b) = no_newline a && no_newline b.
Proof.
  induction a as [|c a IH]; cbn [append no_newline]; [reflexivity|].
  now rewrite IH, andb_assoc.
Qed.

Lemma is_in_crnl_newline (msg : string) :
  is_in crnl msg = true -> no_newline msg = false.
Proof.
  intros H. apply is_in_iff_Substring in H. destruct H as [a [b ->]].
  rewrite no_newline_app. cbn. apply andb_false_r.
Qed.

(** X9.  The layout of a log line is decided by the line feed alone: a
    message without line feed is printed between the markers on one line,
    and that line holds no line feed; a message with a line feed is
    printed between the markers on lines of their own.  The second test
    of [log], for a carriage return followed by a line feed, never
    changes the outcome. *)
Theorem log_text_layout (msg : string) :
  (no_newline msg = true ->
   log_text msg = ">>> " ++ msg ++ " <<<"
   /\ no_newline (log_text msg) = true)
  /\ (no_newline msg = false ->
      log_text msg = ">>>" ++ nl ++ msg ++ nl ++ "<<<")
  /\ log_text msg
     = (if is_in nl msg then ">>>" ++ nl ++ msg ++ nl ++ "<<<"
        else ">>> " ++ msg ++ " <<<").
Proof.
  assert (Hred : is_in nl msg || is_in crnl msg = is_in nl msg).
  { destruct (is_in crnl msg) eqn:E; [|apply orb_false_r].
    rewrite is_in_nl_iff, (is_in_crnl_newline _ E). reflexivity. }
  unfold log_text. rewrite Hred, is_in_nl_iff.
  split; [|split]; try reflexivity; intros H; rewrite H; cbn [negb].
  - split; [reflexivity|]. rewrite !no_newline_app, H. reflexivity.
  - reflexivity.
Qed.

Lemma log_text_layout_witness :
  log_text "add label 'bug'" = ">>> add label 'bug' <<<"
  /\ log_text ("new issue" ++ crnl ++ "body")
     = ">>>" ++ nl ++ ("new issue" ++ crnl ++ "body") ++ nl ++ "<<<".
Proof.
  split.
  - apply (proj1 (log_text_layout "add label 'bug'")). reflexivity.
  - apply (proj1 (proj2 (log_text_layout ("new issue" ++ crnl ++ "body")))).
    reflexivity.
Defined.

(* ================================================================== *)
(** * A body without template fields *)
(* ================================================================== *)

Lemma search_none_without_marker (lit s : string) :
  ~ Substring lit s -> Re.search lit s = None.
Proof.
  intros H. destruct (Re.search lit s) as [m|] eqn:E; [|reflexivity].
  destruct (search_some_leftmost _ _ _ E) as [b [l [a [Hs _]]]].
  elim H. now exists b, (l ++ nl ++ a).
Qed.

(** X10.  A body in which none of the three field markers occurs leaves
    the item alone: template extraction returns, makes no call, changes
    nothing of the item and logs, for each field, that it was not
    found. *)
Theorem add_labels_from_new_body_without_fields
  (R : catalog) (text : string) (w : World) :
  (forall marker, In marker field_markers -> ~ Substring marker text) ->
  add_labels_from_new_body R text w
  = (Returned tt,
     mkWorld (item w) (calls w)
             (stdout w ++ [msg_start_searching;
                           msg_search_os; msg_not_found;
                           msg_search_bug_fix; msg_not_found;
                           msg_search_type; msg_not_found])).
Proof.
  intros H.
  unfold add_labels_from_new_body, os_line, bug_fix_line, type_line.
  rewrite !search_none_without_marker by (apply H; cbn; auto).
  unfold bind, log, get_issue. cbn. now rewrite <- !app_assoc.
Qed.

Lemma add_labels_from_new_body_without_fields_witness :
  add_labels_from_new_body (LABELS_MAP []) "psutil crashes on Linux"
    (fetched (new_issue "t" "psutil crashes on Linux" []))
  = (Returned tt,
     mkWorld (new_issue "t" "psutil crashes on Linux" []) []
             [msg_start_searching;
              msg_search_os; msg_not_found;
              msg_search_bug_fix; msg_not_found;
              msg_search_type; msg_not_found]).
Proof.
  apply (add_labels_from_new_body_without_fields (LABELS_MAP [])
           "psutil crashes on Linux"
           (fetched (new_issue "t" "psutil crashes on Linux" []))).
  intros marker Hin Hsub. apply is_in_iff_Substring in Hsub.
  cbn in Hin. repeat destruct Hin as [<-|Hin]; try discriminate.
  contradiction.
Defined.
